(** * SmartThings webhook bridge: lifecycle handler, webhook ingress and
      crash-loop manager

    A shallow embedding of
      - [src/webhook/smartAppHandler.ts]  (class [SmartAppHandler]),
      - [src/webhook/webhookServer.ts]    (method [handleSmartAppRequest]),
      - the crash-loop manager            (class [CrashLoopManager]),
    followed by the properties of the specification stated over it.

    Conventions of the embedding.
      - A TypeScript [string | null] field is an [option string]; JavaScript
        truthiness of such a value ([!x], [x || null], [a && b]) is [truthy]:
        neither [null] nor the empty string.
      - Integers ([Date.now()], status codes, minutes) are [Z].
      - Code that awaits the network or touches the file system runs in the
        monad [M]: a state monad over [World] whose results may be thrown
        errors.  Every outbound HTTP call and every callback invocation is
        appended to the [trace] of the world; the answers of the remote
        platform are given by an oracle [Env] which sees the whole trace up to
        and including the call it answers.
      - Logging is not modelled. *)

From Stdlib Require Import ZArith String List Bool Lia Sorted.
From stdpp Require Import base gmap strings list.
Import ListNotations.

Open Scope string_scope.
Open Scope Z_scope.
Open Scope list_scope.

(** ** JavaScript values reduced to what the code inspects *)

(** [!!s] for a string: the empty string is falsy. *)
Definition truthy_string (s : string) : bool := negb (String.eqb s "").

(** [!!x] for [x : string | null | undefined]. *)
Definition truthy (x : option string) : bool :=
  match x with
  | Some s => truthy_string s
  | None => false
  end.

(** [x || null] *)
Definition or_null (x : option string) : option string :=
  if truthy x then x else None.

(** The [value: any] payload of a device event. *)
Inductive JsValue : Type :=
| JsNull
| JsBool (b : bool)
| JsNumber (n : Z)
| JsString (s : string).

(** ** Message types of [smartAppHandler.ts] *)

Module InstalledApp.
Record t : Type := mk { installedAppId : string; locationId : string }.
End InstalledApp.

Module PingData.
Record t : Type := mk { challenge : string }.
End PingData.

Module ConfirmationData.
Record t : Type := mk { appId : string; confirmationUrl : string }.
End ConfirmationData.

Module ConfigurationData.
Record t : Type := mk { installedAppId : string; phase : string }.
End ConfigurationData.

(** [installData] and [updateData] share their shape. *)
Module InstallData.
Record t : Type := mk {
  authToken : string;
  refreshToken : string;
  installedApp : InstalledApp.t
}.
End InstallData.

Module DeviceEvent.
Record t : Type := mk {
  deviceId : string;
  componentId : string;
  capability : string;
  attribute : string;
  value : JsValue
}.
End DeviceEvent.

Module DeviceLifecycleEvent.
Record t : Type := mk {
  lifecycle : string;
  deviceId : string;
  deviceName : option string
}.
End DeviceLifecycleEvent.

Module SmartThingsEvent.
Record t : Type := mk {
  eventType : string;
  deviceEvent : option DeviceEvent.t;
  deviceLifecycleEvent : option DeviceLifecycleEvent.t
}.
End SmartThingsEvent.

(** [handleEvent] tests both [eventData.authToken] and
    [eventData.installedApp] before it uses them, so both are optional here. *)
Module EventData.
Record t : Type := mk {
  authToken : option string;
  installedApp : option InstalledApp.t;
  events : list SmartThingsEvent.t
}.
End EventData.

Module UninstallData.
Record t : Type := mk { installedApp : InstalledApp.t }.
End UninstallData.

(** The discriminant is whatever string the parsed body carries. *)
Module SmartAppRequest.
Record t : Type := mk {
  lifecycle : string;
  appId : option string;
  pingData : option PingData.t;
  confirmationData : option ConfirmationData.t;
  configurationData : option ConfigurationData.t;
  installData : option InstallData.t;
  updateData : option InstallData.t;
  eventData : option EventData.t;
  uninstallData : option UninstallData.t
}.
End SmartAppRequest.

(** [ShortEvent] of [subscriptionHandler.ts]. *)
Module ShortEvent.
Record t : Type := mk {
  deviceId : string;
  value : JsValue;
  componentId : string;
  capability : string;
  attribute : string
}.
End ShortEvent.

(** Lifecycle responses: a status code and the [<lifecycle>Data] member. The
    two configuration documents are static and stand for themselves. *)
Inductive ResponseData : Type :=
| NoData
| PingDataOut (challenge : string)
| ConfigurationInitialize
| ConfigurationPage
| InstallDataOut
| UpdateDataOut
| EventDataOut
| UninstallDataOut.

Record Response : Type := mkResponse { statusCode : Z; responseData : ResponseData }.

(** ** The remote platform and the trace of observable effects *)

(** One item of the subscription list answered by the platform. *)
Module RemoteSubscription.
Record t : Type := mk {
  sourceType : string;
  device : option string   (* [sub.device?.deviceId] *)
}.
End RemoteSubscription.

(** An axios request either resolves or rejects with an error whose
    [response?.status] may be present. *)
Inductive HttpReply : Type :=
| Resolved
| Rejected (status : option Z).

Inductive Effect : Type :=
| GetSubscriptions (appId token : option string)
| PostDeviceSubscription (appId token : option string) (deviceId : string)
| PostLifecycleSubscription (appId token location : option string)
| DeleteSubscriptions (appId token : option string)
| GetConfirmationUrl (url : string)
| EventHandlerCalled (handler : nat) (event : ShortEvent.t)
| LifecycleHandlerCalled (handler : nat) (lifecycle deviceId : string)
                         (deviceName : option string).

Definition Trace : Type := list Effect.

(** What the outside world answers.  Each oracle is applied to the trace that
    ends with the call being answered, so answers may depend on everything
    that happened before. *)
Record Env : Type := mkEnv {
  list_reply : Trace -> option (list RemoteSubscription.t);
  post_reply : Trace -> HttpReply;
  delete_reply : Trace -> HttpReply;
  get_reply : Trace -> HttpReply;
  disk_writable : bool;   (* [writeFileSync] / [unlinkSync] succeed *)
  now : Z                 (* the clock read by [new Date()] *)
}.

(** ** State of the handler and of its credentials file *)

Module SavedCredentials.
Record t : Type := mk {
  installedAppId : option string;
  authToken : option string;
  refreshToken : option string;
  locationId : option string;
  savedAt : Z
}.
End SavedCredentials.

(** Content of [smartapp_credentials.json] as [loadCredentials] sees it:
    a document it can parse, or something that makes the read or the parse
    throw. *)
Inductive CredentialsFile : Type :=
| Parsed (data : SavedCredentials.t)
| Unreadable.

Record SmartAppHandler : Type := mkHandler {
  installedAppId : option string;
  authToken : option string;
  refreshToken : option string;
  locationId : option string;
  eventHandlers : list nat;
  deviceLifecycleHandlers : list nat;
  deviceIds : list string
}.

Record World : Type := mkWorld {
  handler : SmartAppHandler;
  disk : option CredentialsFile;
  trace : Trace
}.

Definition with_credentials (a t r l : option string) (h : SmartAppHandler)
  : SmartAppHandler :=
  mkHandler a t r l (eventHandlers h) (deviceLifecycleHandlers h) (deviceIds h).

Definition with_deviceIds (ids : list string) (h : SmartAppHandler)
  : SmartAppHandler :=
  mkHandler (installedAppId h) (authToken h) (refreshToken h) (locationId h)
            (eventHandlers h) (deviceLifecycleHandlers h) ids.

(** ** The monad of handler code *)

Inductive Error : Type :=
| AxiosError (status : option Z).

Inductive Outcome (A : Type) : Type :=
| Returned (a : A)
| Thrown (e : Error).
Arguments Returned {A} a.
Arguments Thrown {A} e.

Definition M (A : Type) : Type := World -> Outcome A * World.

Definition ret {A} (a : A) : M A := fun w => (Returned a, w).

Definition bind {A B} (m : M A) (k : A -> M B) : M B :=
  fun w =>
    match m w with
    | (Returned a, w') => k a w'
    | (Thrown e, w') => (Thrown e, w')
    end.

Definition throw {A} (e : Error) : M A := fun w => (Thrown e, w).

(** [try { m } catch (e) { h e }] *)
Definition try_catch {A} (m : M A) (h : Error -> M A) : M A :=
  fun w =>
    match m w with
    | (Returned a, w') => (Returned a, w')
    | (Thrown e, w') => h e w'
    end.

Declare Scope handler_scope.
Delimit Scope handler_scope with handler.
Notation "x <- m ;; k" := (bind m (fun x => k))
  (at level 100, m at next level, right associativity) : handler_scope.
Notation "m ;; k" := (bind m (fun _ => k))
  (at level 100, right associativity) : handler_scope.
Open Scope handler_scope.

Definition this : M SmartAppHandler := fun w => (Returned (handler w), w).

Definition update (f : SmartAppHandler -> SmartAppHandler) : M unit :=
  fun w => (Returned tt, mkWorld (f (handler w)) (disk w) (trace w)).

Definition read_disk : M (option CredentialsFile) :=
  fun w => (Returned (disk w), w).

Definition write_disk (d : option CredentialsFile) : M unit :=
  fun w => (Returned tt, mkWorld (handler w) d (trace w)).

(** Perform an observable effect; the result is the trace ending with it. *)
Definition emit (e : Effect) : M Trace :=
  fun w =>
    let t := trace w ++ [e] in
    (Returned t, mkWorld (handler w) (disk w) t).

(** [for (const x of l) { body x }] *)
Fixpoint for_each {A} (l : list A) (body : A -> M unit) : M unit :=
  match l with
  | [] => ret tt
  | x :: rest => body x ;; for_each rest body
  end.

(** ** [SmartAppHandler]: credentials on disk *)

(** [isInstalled()]: both fields differ from [null]. *)
Definition isInstalled (h : SmartAppHandler) : bool :=
  match installedAppId h, authToken h with
  | Some _, Some _ => true
  | _, _ => false
  end.

(** The guard [!this.installedAppId || !this.authToken] of the subscription
    methods. *)
Definition missing_credentials (h : SmartAppHandler) : bool :=
  negb (truthy (installedAppId h)) || negb (truthy (authToken h)).

(** [loadCredentials()]: when the file exists and parses, every field is
    taken on its own as [data.field || null]; a failing read or parse is
    caught and leaves the fields as they were. *)
Definition loadCredentials (d : option CredentialsFile) (h : SmartAppHandler)
  : SmartAppHandler :=
  match d with
  | Some (Parsed data) =>
      with_credentials
        (or_null (SavedCredentials.installedAppId data))
        (or_null (SavedCredentials.authToken data))
        (or_null (SavedCredentials.refreshToken data))
        (or_null (SavedCredentials.locationId data))
        h
  | Some Unreadable => h
  | None => h
  end.

(** The field initialisers of the class. *)
Definition initial_handler : SmartAppHandler :=
  mkHandler None None None None [] [] [].

(** [new SmartAppHandler(platform, log)] over the given storage. *)
Definition construct (d : option CredentialsFile) : World :=
  mkWorld (loadCredentials d initial_handler) d [].

Definition is_409 (status : option Z) : bool :=
  match status with
  | Some s => s =? 409
  | None => false
  end.

(** The device ids collected by the loop of [getExistingSubscriptions]. *)
Definition subscribedDeviceIds (items : list RemoteSubscription.t) : gset string :=
  fold_left
    (fun (acc : gset string) sub =>
       match RemoteSubscription.device sub with
       | Some id =>
           if String.eqb (RemoteSubscription.sourceType sub) "DEVICE"
              && truthy_string id
           then {[ id ]} ∪ acc
           else acc
       | None => acc
       end)
    items ∅.

Definition toShortEvent (de : DeviceEvent.t) : ShortEvent.t :=
  ShortEvent.mk (DeviceEvent.deviceId de) (DeviceEvent.value de)
                (DeviceEvent.componentId de) (DeviceEvent.capability de)
                (DeviceEvent.attribute de).

(** The four assignments that open [handleInstall] and [handleUpdate]. *)
Definition install_credentials (data : InstallData.t) (h : SmartAppHandler)
  : SmartAppHandler :=
  with_credentials
    (Some (InstalledApp.installedAppId (InstallData.installedApp data)))
    (Some (InstallData.authToken data))
    (Some (InstallData.refreshToken data))
    (Some (InstalledApp.locationId (InstallData.installedApp data)))
    h.

(** The document [saveCredentials] writes. *)
Definition credentials_record (h : SmartAppHandler) (savedAt : Z) : SavedCredentials.t :=
  SavedCredentials.mk (installedAppId h) (authToken h) (refreshToken h)
                      (locationId h) savedAt.

Section Handler.

Variable env : Env.

Definition saveCredentials : M unit :=
  h <- this ;;
  if disk_writable env then
    write_disk (Some (Parsed (credentials_record h (now env))))
  else ret tt.

Definition clearCredentials : M unit :=
  d <- read_disk ;;
  match d with
  | Some _ => if disk_writable env then write_disk None else ret tt
  | None => ret tt
  end.

(** *** Remote subscriptions *)

Definition getExistingSubscriptions : M (gset string) :=
  h <- this ;;
  if missing_credentials h then ret ∅
  else
    try_catch
      (t <- emit (GetSubscriptions (installedAppId h) (authToken h)) ;;
       match list_reply env t with
       | Some items => ret (subscribedDeviceIds items)
       | None => throw (AxiosError None)
       end)
      (fun _ => ret ∅).

Definition createDeviceSubscription (deviceId : string) : M unit :=
  h <- this ;;
  try_catch
    (t <- emit (PostDeviceSubscription (installedAppId h) (authToken h) deviceId) ;;
     match post_reply env t with
     | Resolved => ret tt
     | Rejected status => throw (AxiosError status)
     end)
    (fun error =>
       match error with
       | AxiosError status =>
           if is_409 status then ret tt else throw error
       end).

Definition createDeviceLifecycleSubscription : M unit :=
  h <- this ;;
  if missing_credentials h || negb (truthy (locationId h)) then ret tt
  else
    try_catch
      (t <- emit (PostLifecycleSubscription (installedAppId h) (authToken h)
                    (locationId h)) ;;
       match post_reply env t with
       | Resolved => ret tt
       | Rejected status => throw (AxiosError status)
       end)
      (fun _ => ret tt).

Definition deleteAllSubscriptions : M unit :=
  h <- this ;;
  if missing_credentials h then ret tt
  else
    try_catch
      (t <- emit (DeleteSubscriptions (installedAppId h) (authToken h)) ;;
       match delete_reply env t with
       | Resolved => ret tt
       | Rejected status => throw (AxiosError status)
       end)
      (fun _ => ret tt).

(** The loop shared by both bulk creations: one attempt per listed id, a
    failure is logged and the loop goes on. *)
Definition create_each (ids : list string) : M unit :=
  for_each ids
    (fun deviceId => try_catch (createDeviceSubscription deviceId) (fun _ => ret tt)).

Definition syncDeviceSubscriptions : M unit :=
  h <- this ;;
  if missing_credentials h then ret tt
  else if Nat.eqb (length (deviceIds h)) 0 then ret tt
  else
    existingSubscriptions <- getExistingSubscriptions ;;
    h' <- this ;;
    let missingDeviceIds :=
      filter (fun id => id ∉ existingSubscriptions) (deviceIds h') in
    if Nat.eqb (length missingDeviceIds) 0 then ret tt
    else create_each missingDeviceIds.

Definition createDeviceSubscriptions : M unit :=
  h <- this ;;
  if missing_credentials h then ret tt
  else if Nat.eqb (length (deviceIds h)) 0 then ret tt
  else create_each (deviceIds h).

Definition setDeviceIds (ids : list string) : M unit :=
  update (with_deviceIds ids) ;;
  h <- this ;;
  if isInstalled h && negb (Nat.eqb (length ids) 0) then
    syncDeviceSubscriptions ;;
    createDeviceLifecycleSubscription
  else ret tt.

Definition syncPendingSubscriptions : M unit :=
  h <- this ;;
  if negb (isInstalled h) || Nat.eqb (length (deviceIds h)) 0 then ret tt
  else
    syncDeviceSubscriptions ;;
    createDeviceLifecycleSubscription.

(** *** Consumers *)

Definition addEventHandler (k : nat) : M unit :=
  update (fun h =>
    mkHandler (installedAppId h) (authToken h) (refreshToken h) (locationId h)
              (eventHandlers h ++ [k]) (deviceLifecycleHandlers h) (deviceIds h)).

Definition addDeviceLifecycleHandler (k : nat) : M unit :=
  update (fun h =>
    mkHandler (installedAppId h) (authToken h) (refreshToken h) (locationId h)
              (eventHandlers h) (deviceLifecycleHandlers h ++ [k]) (deviceIds h)).

(** What a callback throws is caught and logged, so an invocation is only
    an entry of the trace. *)
Definition notifyEventHandlers (event : ShortEvent.t) : M unit :=
  h <- this ;;
  for_each (eventHandlers h)
    (fun k => _ <- emit (EventHandlerCalled k event) ;; ret tt).

Definition notifyDeviceLifecycleHandlers
    (lifecycle deviceId : string) (deviceName : option string) : M unit :=
  h <- this ;;
  for_each (deviceLifecycleHandlers h)
    (fun k => _ <- emit (LifecycleHandlerCalled k lifecycle deviceId deviceName) ;;
              ret tt).

(** *** Lifecycle handlers *)

Definition handlePing (request : SmartAppRequest.t) : Response :=
  match SmartAppRequest.pingData request with
  | Some p =>
      if truthy_string (PingData.challenge p)
      then mkResponse 200 (PingDataOut (PingData.challenge p))
      else mkResponse 400 NoData
  | None => mkResponse 400 NoData
  end.

Definition handleConfirmation (request : SmartAppRequest.t) : M Response :=
  match SmartAppRequest.confirmationData request with
  | Some c =>
      if truthy_string (ConfirmationData.confirmationUrl c) then
        try_catch
          (t <- emit (GetConfirmationUrl (ConfirmationData.confirmationUrl c)) ;;
           match get_reply env t with
           | Resolved => ret (mkResponse 200 NoData)
           | Rejected status => throw (AxiosError status)
           end)
          (fun _ => ret (mkResponse 500 NoData))
      else ret (mkResponse 400 NoData)
  | None => ret (mkResponse 400 NoData)
  end.

Definition handleConfiguration (request : SmartAppRequest.t) : Response :=
  match SmartAppRequest.configurationData request with
  | None => mkResponse 400 NoData
  | Some configData =>
      if String.eqb (ConfigurationData.phase configData) "INITIALIZE"
      then mkResponse 200 ConfigurationInitialize
      else if String.eqb (ConfigurationData.phase configData) "PAGE"
      then mkResponse 200 ConfigurationPage
      else mkResponse 200 NoData
  end.

Definition store_credentials (data : InstallData.t) : M unit :=
  update (install_credentials data).

Definition handleInstall (request : SmartAppRequest.t) : M Response :=
  match SmartAppRequest.installData request with
  | None => ret (mkResponse 400 NoData)
  | Some installData =>
      store_credentials installData ;;
      saveCredentials ;;
      createDeviceSubscriptions ;;
      createDeviceLifecycleSubscription ;;
      ret (mkResponse 200 InstallDataOut)
  end.

Definition handleUpdate (request : SmartAppRequest.t) : M Response :=
  match SmartAppRequest.updateData request with
  | None => ret (mkResponse 400 NoData)
  | Some updateData =>
      store_credentials updateData ;;
      saveCredentials ;;
      deleteAllSubscriptions ;;
      createDeviceSubscriptions ;;
      createDeviceLifecycleSubscription ;;
      ret (mkResponse 200 UpdateDataOut)
  end.

(** The body of the loop of [handleEvent]. *)
Definition process_event (event : SmartThingsEvent.t) : M unit :=
  match String.eqb (SmartThingsEvent.eventType event) "DEVICE_EVENT",
        SmartThingsEvent.deviceEvent event with
  | true, Some deviceEvent => notifyEventHandlers (toShortEvent deviceEvent)
  | _, _ =>
      match String.eqb (SmartThingsEvent.eventType event) "DEVICE_LIFECYCLE_EVENT",
            SmartThingsEvent.deviceLifecycleEvent event with
      | true, Some lifecycleEvent =>
          let id := DeviceLifecycleEvent.deviceId lifecycleEvent in
          (if String.eqb (DeviceLifecycleEvent.lifecycle lifecycleEvent) "CREATE"
           then
             try_catch
               (createDeviceSubscription id ;;
                update (fun h => with_deviceIds (deviceIds h ++ [id]) h))
               (fun _ => ret tt)
           else ret tt) ;;
          notifyDeviceLifecycleHandlers
            (DeviceLifecycleEvent.lifecycle lifecycleEvent) id
            (DeviceLifecycleEvent.deviceName lifecycleEvent)
      | _, _ => ret tt
      end
  end.

Definition handleEvent (request : SmartAppRequest.t) : M Response :=
  match SmartAppRequest.eventData request with
  | None => ret (mkResponse 400 NoData)
  | Some eventData =>
      h <- this ;;
      let hadCredentialsBefore := isInstalled h in
      match truthy (EventData.authToken eventData),
            EventData.installedApp eventData with
      | true, Some app =>
          update (fun h =>
            with_credentials (Some (InstalledApp.installedAppId app))
                             (EventData.authToken eventData)
                             (refreshToken h)
                             (Some (InstalledApp.locationId app)) h) ;;
          if negb hadCredentialsBefore && negb (Nat.eqb (length (deviceIds h)) 0)
          then syncPendingSubscriptions
          else ret tt
      | _, _ => ret tt
      end ;;
      for_each (EventData.events eventData) process_event ;;
      ret (mkResponse 200 EventDataOut)
  end.

Definition handleUninstall (_request : SmartAppRequest.t) : M Response :=
  update (with_credentials None None None None) ;;
  clearCredentials ;;
  ret (mkResponse 200 UninstallDataOut).

Definition handleRequest (request : SmartAppRequest.t) : M Response :=
  let lifecycle := SmartAppRequest.lifecycle request in
  if String.eqb lifecycle "PING" then ret (handlePing request)
  else if String.eqb lifecycle "CONFIRMATION" then handleConfirmation request
  else if String.eqb lifecycle "CONFIGURATION" then ret (handleConfiguration request)
  else if String.eqb lifecycle "INSTALL" then handleInstall request
  else if String.eqb lifecycle "UPDATE" then handleUpdate request
  else if String.eqb lifecycle "EVENT" then handleEvent request
  else if String.eqb lifecycle "UNINSTALL" then handleUninstall request
  else ret (mkResponse 200 NoData).

End Handler.

(** ** [WebhookServer.handleSmartAppRequest] *)

Inductive HttpBody : Type :=
| ErrorBody (error : string)
| LifecycleBody (response : Response).

Record HttpResponse : Type := mkHttp { status : Z; body : HttpBody }.

(** The server owns the handler (or [null] when direct webhooks are switched
    off), reads [platform.config.smartapp_id], and shares storage and network
    with the handler. *)
Record WebhookServer : Type := mkServer {
  smartAppHandler : option SmartAppHandler;
  smartapp_id : option string;
  server_disk : option CredentialsFile;
  server_trace : Trace
}.

Section Ingress.

(** [JSON.parse(body) as SmartAppRequest]; [None] when it throws. *)
Variable JSON_parse : string -> option SmartAppRequest.t.
Variable env : Env.

(** [configuredAppId && request.appId !== configuredAppId] *)
Definition appId_rejected (configured : option string) (request : SmartAppRequest.t)
  : bool :=
  truthy configured
  && negb (bool_decide (SmartAppRequest.appId request = configured)).

(** [response.statusCode || 200] *)
Definition status_or_200 (r : Response) : Z :=
  if statusCode r =? 0 then 200 else statusCode r.

Definition handleSmartAppRequest (body : string) (s : WebhookServer)
  : HttpResponse * WebhookServer :=
  match smartAppHandler s with
  | None => (mkHttp 500 (ErrorBody "SmartApp handler not initialized"), s)
  | Some h =>
      match JSON_parse body with
      | None => (mkHttp 400 (ErrorBody "Invalid request body"), s)
      | Some request =>
          if appId_rejected (smartapp_id s) request
          then (mkHttp 403 (ErrorBody "Invalid"), s)
          else
            let (result, w) :=
              handleRequest env request
                (mkWorld h (server_disk s) (server_trace s)) in
            let s' := mkServer (Some (handler w)) (smartapp_id s) (disk w) (trace w) in
            match result with
            | Returned response =>
                (mkHttp (status_or_200 response) (LifecycleBody response), s')
            | Thrown _ => (mkHttp 400 (ErrorBody "Invalid request body"), s')
            end
      end
  end.

End Ingress.

(** ** [CrashLoopManager] *)

Module CrashLoopManager.

Record CrashEvent : Type := mkCrash { timestamp : Z; errorType : string }.

Record CrashLoopConfig : Type := mkConfig {
  maxCrashes : Z;
  timeWindowMinutes : Z;
  relevantErrorTypes : list string
}.

Definition MAX_LOG_ENTRIES : nat := 20.

(** [crash_loop_log.json]: missing, or a JSON document that is an array of
    crash events ([Some]) or something else ([None]). *)
Inductive CrashLogFile : Type :=
| Absent
| Content (data : option (list CrashEvent)).

(** One call's view of the outside: whether reading and writing the storage
    directory go through, and the clock. *)
Record Io : Type := mkIo { read_ok : bool; write_ok : bool; date_now : Z }.

Definition readCrashLog (io : Io) (f : CrashLogFile) : list CrashEvent :=
  if read_ok io then
    match f with
    | Content (Some data) => data
    | Content None => []
    | Absent => []
    end
  else [].

(** [logData.slice(start)] for [0 <= start]. *)
Definition slice (start : nat) (logData : list CrashEvent) : list CrashEvent :=
  drop start logData.

Definition writeCrashLog (io : Io) (logData : list CrashEvent) (f : CrashLogFile)
  : CrashLogFile :=
  if write_ok io then
    let logData :=
      if Nat.ltb MAX_LOG_ENTRIES (length logData)
      then slice (length logData - MAX_LOG_ENTRIES) logData
      else logData in
    Content (Some logData)
  else f.

Definition recordPotentialCrash (io : Io) (errorType : string) (f : CrashLogFile)
  : CrashLogFile :=
  let crashes := readCrashLog io f in
  writeCrashLog io (crashes ++ [mkCrash (date_now io) errorType]) f.

(** [relevantErrorTypes.includes(errorType)] *)
Definition includes (types : list string) (errorType : string) : bool :=
  existsb (String.eqb errorType) types.

Definition recentRelevant (config : CrashLoopConfig) (now : Z) (crash : CrashEvent)
  : bool :=
  let timeWindowMs := timeWindowMinutes config * 60 * 1000 in
  (now - timestamp crash <=? timeWindowMs)
  && (Nat.eqb (length (relevantErrorTypes config)) 0
      || includes (relevantErrorTypes config) (errorType crash)).

Definition isCrashLoopDetected (io : Io) (config : CrashLoopConfig) (f : CrashLogFile)
  : bool :=
  let crashes := readCrashLog io f in
  if Nat.eqb (length crashes) 0 then false
  else
    let recentRelevantCrashes :=
      List.filter (recentRelevant config (date_now io)) crashes in
    Z.of_nat (length recentRelevantCrashes) >=? maxCrashes config.

Definition resetCrashState (io : Io) (f : CrashLogFile) : CrashLogFile :=
  writeCrashLog io [] f.

Definition defaultCrashLoopConfig : CrashLoopConfig :=
  mkConfig 5 15 ["API_INIT_FAILURE"; "DEVICE_HEALTH_FAILURE"; "TOKEN_REFRESH_FAILURE"].

(** A run of [recordPotentialCrash] calls, each with its own view of the
    outside and its own error type. *)
Definition record_all (calls : list (Io * string)) (f : CrashLogFile) : CrashLogFile :=
  fold_left (fun f c => recordPotentialCrash (fst c) (snd c) f) calls f.

(** The entries a healthy read finds in the file. *)
Definition stored (f : CrashLogFile) : list CrashEvent :=
  readCrashLog (mkIo true true 0) f.

(** The entries appended by a run of calls, in call order. *)
Definition recorded (calls : list (Io * string)) : list CrashEvent :=
  map (fun c => mkCrash (date_now (fst c)) (snd c)) calls.

(** A call during which storage works. *)
Definition healthy (c : Io * string) : Prop :=
  read_ok (fst c) = true /\ write_ok (fst c) = true.

(** The last [n] entries of a log. *)
Definition newest (n : nat) (l : list CrashEvent) : list CrashEvent :=
  drop (length l - n) l.

(** The counting rule in the words of the specification: an entry counts
    when it is no older than the window and its kind is one of the relevant
    kinds, or any kind when none is named. *)
Definition within_window (config : CrashLoopConfig) (now : Z) (crash : CrashEvent)
  : Prop :=
  now - timestamp crash <= timeWindowMinutes config * 60 * 1000.

Definition relevant (config : CrashLoopConfig) (crash : CrashEvent) : Prop :=
  relevantErrorTypes config = [] \/ errorType crash ∈ relevantErrorTypes config.

#[global] Instance within_window_dec config now crash
  : Decision (within_window config now crash) :=
  (_ : Decision (now - timestamp crash <= timeWindowMinutes config * 60 * 1000)).

#[global] Instance relevant_dec config crash : Decision (relevant config crash) :=
  (_ : Decision (relevantErrorTypes config = []
                 \/ errorType crash ∈ relevantErrorTypes config)).

Definition qualifying (config : CrashLoopConfig) (now : Z) (log : list CrashEvent)
  : list CrashEvent :=
  filter (fun crash => within_window config now crash /\ relevant config crash) log.

(** Sample logs: entries of kind API_INIT_FAILURE so many minutes before
    [now]. *)
Definition minutes_ago (now : Z) (minutes : list Z) : CrashLogFile :=
  Content (Some (map (fun m => mkCrash (now - m * 60000) "API_INIT_FAILURE") minutes)).

Definition at_noon : Io := mkIo true true 1700000000000.

End CrashLoopManager.

(** ** [WebhookServer]: construction, routing and the legacy event endpoint *)

Module Server.

(** The server around the lifecycle part modelled above: the mode flag, whether
    an OAuth collaborator is registered, and the handlers of the legacy event
    endpoint. *)
Record t : Type := mk {
  useDirectWebhook : bool;
  authHandler : bool;
  eventHandlers : list nat;
  lifecycle : WebhookServer
}.

(** The constructor.  [use_direct_webhook] is the configuration value
    ([None] when it is not given); only a literal [false] switches direct
    webhooks off, and the SmartApp handler is constructed only when they are
    on. *)
Definition create (use_direct_webhook : option bool) (configured_app : option string)
    (d : option CredentialsFile) : t :=
  let direct := negb (bool_decide (use_direct_webhook = Some false)) in
  mk direct false []
     (mkServer (if direct then Some (handler (construct d)) else None)
               configured_app d []).

Definition setAuthHandler (s : t) : t :=
  mk (useDirectWebhook s) true (eventHandlers s) (lifecycle s).

Definition addEventHandler (k : nat) (s : t) : t :=
  mk (useDirectWebhook s) (authHandler s) (eventHandlers s ++ [k]) (lifecycle s).

Definition getSmartAppHandler (s : t) : option SmartAppHandler :=
  smartAppHandler (lifecycle s).

(** Where the request listener of [startServer] sends a request. *)
Inductive Route : Type :=
| ToOAuthCallback
| ToSmartApp
| ToDeviceEvent
| ToHealth
| ToNotFound.

Definition route (s : t) (pathname method : string) : Route :=
  if String.eqb pathname "/oauth/callback" then ToOAuthCallback
  else if String.eqb pathname "/smartapp"
          || (String.eqb pathname "/" && useDirectWebhook s && String.eqb method "POST")
  then ToSmartApp
  else if String.eqb pathname "/" && String.eqb method "POST" then ToDeviceEvent
  else if String.eqb pathname "/health"
          || (String.eqb pathname "/" && String.eqb method "GET")
  then ToHealth
  else ToNotFound.

(** What is written to the response. *)
Inductive Reply : Type :=
| Json (response : HttpResponse)
| Health (directWebhook : bool)
| Html (status : Z) (html : string)
| Bare (status : Z)
| FromAuthHandler.

Definition reply_status (r : Reply) : option Z :=
  match r with
  | Json response => Some (status response)
  | Health _ => Some 200
  | Html st _ => Some st
  | Bare st => Some st
  | FromAuthHandler => None
  end.

Section Listener.

(** [JSON.parse] at its two uses, the platform, and whether the OAuth
    collaborator throws. *)
Variable JSON_parse : string -> option SmartAppRequest.t.
Variable JSON_parse_event : string -> option ShortEvent.t.
Variable env : Env.
Variable oauth_throws : bool.

(** [notifyEventHandlers]: every handler is called; what one throws is
    caught. *)
Definition notifyEventHandlers (event : ShortEvent.t) (s : t) : t :=
  mk (useDirectWebhook s) (authHandler s) (eventHandlers s)
     (mkServer (smartAppHandler (lifecycle s)) (smartapp_id (lifecycle s))
               (server_disk (lifecycle s))
               (server_trace (lifecycle s)
                ++ map (fun k => EventHandlerCalled k event) (eventHandlers s))).

Definition handleDeviceEvent (body : string) (s : t) : Reply * t :=
  match JSON_parse_event body with
  | Some event => (Bare 200, notifyEventHandlers event s)
  | None => (Bare 400, s)
  end.

Definition handleOAuthCallback (s : t) : Reply * t :=
  if negb (authHandler s) || oauth_throws
  then (Html 500 "<h1>Authentication failed</h1><p>Please try again.</p>", s)
  else (FromAuthHandler, s).

(** The request listener. *)
Definition listener (pathname method body : string) (s : t) : Reply * t :=
  match route s pathname method with
  | ToOAuthCallback =>
      if authHandler s then handleOAuthCallback s
      else (Html 500 "<h1>Error: OAuth handler not initialized</h1>", s)
  | ToSmartApp =>
      let (response, core) := handleSmartAppRequest JSON_parse env body (lifecycle s) in
      (Json response, mk (useDirectWebhook s) (authHandler s) (eventHandlers s) core)
  | ToDeviceEvent => handleDeviceEvent body s
  | ToHealth => (Health (useDirectWebhook s), s)
  | ToNotFound => (Bare 404, s)
  end.

(** A sequence of requests, served one after the other. *)
Fixpoint serve (requests : list (string * string * string)) (s : t) : list Reply * t :=
  match requests with
  | [] => ([], s)
  | (pathname, method, body) :: rest =>
      let (r, s1) := listener pathname method body s in
      let (rs, s2) := serve rest s1 in
      (r :: rs, s2)
  end.

End Listener.

End Server.

(** ** [SubscriptionHandler.handleDeviceEvent] *)

Module SubscriptionHandler.

(** [devices.find(device => device.id === id)] over the ids of the devices:
    the position of the first device with that id. *)
Fixpoint find (devices : list string) (id : string) : option nat :=
  match devices with
  | [] => None
  | d :: rest =>
      if String.eqb d id then Some 0%nat
      else match find rest id with
           | Some i => Some (S i)
           | None => None
           end
  end.

(** The device whose [processEvent] receives the event, if any. *)
Definition handleDeviceEvent (devices : list string) (event : ShortEvent.t) : option nat :=
  find devices (ShortEvent.deviceId event).

(** The deliveries of a batch of events, as in the polling loop's
    [responseBody.events.forEach]. *)
Definition deliveries (devices : list string) (events : list ShortEvent.t)
  : list (nat * ShortEvent.t) :=
  flat_map (fun event => match handleDeviceEvent devices event with
                         | Some i => [(i, event)]
                         | None => []
                         end) events.

End SubscriptionHandler.

(** ** Observations on runs *)

(** The part of the trace added between two worlds of one run. *)
Definition issued (before after : World) : Trace :=
  drop (length (trace before)) (trace after).

(** Device ids of the subscription-create calls of a trace, in order. *)
Definition create_calls (t : Trace) : list string :=
  flat_map (fun e => match e with
                     | PostDeviceSubscription _ _ id => [id]
                     | _ => []
                     end) t.

(** The HTTP calls of a trace, in order. *)
Definition is_outbound (e : Effect) : bool :=
  match e with
  | EventHandlerCalled _ _ => false
  | LifecycleHandlerCalled _ _ _ _ => false
  | _ => true
  end.

Definition outbound_calls (t : Trace) : Trace := List.filter is_outbound t.

(** Invocations of event handlers in a trace, in order. *)
Definition handler_calls (t : Trace) : list (nat * ShortEvent.t) :=
  flat_map (fun e => match e with
                     | EventHandlerCalled k ev => [(k, ev)]
                     | _ => []
                     end) t.

(** What one dispatch of [event] looks like: every registered handler is
    invoked once, in registration order. *)
Definition dispatch_of (hs : list nat) (event : ShortEvent.t) : list (nat * ShortEvent.t) :=
  map (fun k => (k, event)) hs.

(** The set answered by the remote list call that a reconciliation started in
    [w] performs: the ids of DEVICE subscriptions, empty when the call fails. *)
Definition remoteDeviceIds (env : Env) (w : World) : gset string :=
  let h := handler w in
  match list_reply env (trace w ++ [GetSubscriptions (installedAppId h) (authToken h)]) with
  | Some items => subscribedDeviceIds items
  | None => ∅
  end.

(** The device-state items of an event list, as [handleEvent] recognises
    them, already in normalized form. *)
Definition deviceStateEvents (events : list SmartThingsEvent.t) : list ShortEvent.t :=
  flat_map (fun event =>
    match String.eqb (SmartThingsEvent.eventType event) "DEVICE_EVENT",
          SmartThingsEvent.deviceEvent event with
    | true, Some de => [toShortEvent de]
    | _, _ => []
    end) events.

(** The device ids of the lifecycle CREATE items of an event list. *)
Definition createdDevices (events : list SmartThingsEvent.t) : list string :=
  flat_map (fun event =>
    match String.eqb (SmartThingsEvent.eventType event) "DEVICE_EVENT",
          SmartThingsEvent.deviceEvent event with
    | true, Some _ => []
    | _, _ =>
        match String.eqb (SmartThingsEvent.eventType event) "DEVICE_LIFECYCLE_EVENT",
              SmartThingsEvent.deviceLifecycleEvent event with
        | true, Some le =>
            if String.eqb (DeviceLifecycleEvent.lifecycle le) "CREATE"
            then [DeviceLifecycleEvent.deviceId le] else []
        | _, _ => []
        end
    end) events.

(** A create call counts as succeeded when it resolves or is answered 409. *)
Definition accepted (r : HttpReply) : bool :=
  match r with
  | Resolved => true
  | Rejected status => is_409 status
  end.

(** The seven lifecycle kinds of [SmartAppLifecycle]. *)
Definition known_lifecycles : list string :=
  ["PING"; "CONFIRMATION"; "CONFIGURATION"; "INSTALL"; "UPDATE"; "EVENT"; "UNINSTALL"].

(** Both of [authToken] and [installedAppId] are set, or neither is. *)
Definition paired (h : SmartAppHandler) : Prop :=
  installedAppId h = None <-> authToken h = None.

(** The durable record holds exactly the four credential fields in memory;
    no file stands for four absent fields. *)
Definition durable_agrees (w : World) : Prop :=
  let h := handler w in
  match disk w with
  | Some (Parsed data) =>
      SavedCredentials.installedAppId data = installedAppId h
      /\ SavedCredentials.authToken data = authToken h
      /\ SavedCredentials.refreshToken data = refreshToken h
      /\ SavedCredentials.locationId data = locationId h
  | Some Unreadable => False
  | None =>
      installedAppId h = None /\ authToken h = None
      /\ refreshToken h = None /\ locationId h = None
  end.

(** A process restart: a new handler is constructed over the storage the old
    one leaves behind. *)
Definition restart (w : World) : World := construct (disk w).

(** Handling a sequence of lifecycle messages, each against its own state of
    the outside world. *)
Fixpoint handle_all (msgs : list (Env * SmartAppRequest.t)) (w : World) : World :=
  match msgs with
  | [] => w
  | (env, request) :: rest => handle_all rest (snd (handleRequest env request w))
  end.

(** ** Sample inputs *)

Module Sample.

Definition request (lifecycle : string) : SmartAppRequest.t :=
  SmartAppRequest.mk lifecycle None None None None None None None None.

Definition ping (challenge : string) : SmartAppRequest.t :=
  SmartAppRequest.mk "PING" None (Some (PingData.mk challenge))
                     None None None None None None.

Definition install (app token refresh location : string) : SmartAppRequest.t :=
  SmartAppRequest.mk "INSTALL" None None None None
    (Some (InstallData.mk token refresh (InstalledApp.mk app location)))
    None None None.

Definition update (app token refresh location : string) : SmartAppRequest.t :=
  SmartAppRequest.mk "UPDATE" None None None None None
    (Some (InstallData.mk token refresh (InstalledApp.mk app location)))
    None None.

Definition event (token : option string) (app : option InstalledApp.t)
           (events : list SmartThingsEvent.t) : SmartAppRequest.t :=
  SmartAppRequest.mk "EVENT" None None None None None None
    (Some (EventData.mk token app events)) None.

Definition deviceState (id attribute : string) (v : JsValue) : SmartThingsEvent.t :=
  SmartThingsEvent.mk "DEVICE_EVENT"
    (Some (DeviceEvent.mk id "main" "switch" attribute v)) None.

Definition deviceCreated (id : string) : SmartThingsEvent.t :=
  SmartThingsEvent.mk "DEVICE_LIFECYCLE_EVENT" None
    (Some (DeviceLifecycleEvent.mk "CREATE" id None)).

(** Three device-state items around one lifecycle CREATE. *)
Definition items : list SmartThingsEvent.t :=
  [ deviceState "d1" "switch" (JsString "on");
    deviceCreated "d9";
    deviceState "d1" "level" (JsNumber 40);
    deviceState "d2" "switch" (JsString "off") ].

Definition eventMessage : SmartAppRequest.t :=
  event (Some "token-2") (Some (InstalledApp.mk "app-1" "loc-1")) items.

(** A platform that lists no subscription and accepts every call. *)
Definition friendly : Env :=
  mkEnv (fun _ => Some []) (fun _ => Resolved) (fun _ => Resolved)
        (fun _ => Resolved) true 1700000000000.

(** A platform that lists a DEVICE subscription for each of [ids] and accepts
    every call. *)
Definition listing (ids : list string) : Env :=
  mkEnv (fun _ => Some (map (fun id => RemoteSubscription.mk "DEVICE" (Some id)) ids))
        (fun _ => Resolved) (fun _ => Resolved) (fun _ => Resolved) true 1700000000000.

(** A platform that answers every create with 409. *)
Definition conflicting : Env :=
  mkEnv (fun _ => Some []) (fun _ => Rejected (Some 409)) (fun _ => Resolved)
        (fun _ => Resolved) true 1700000000000.

Definition installed (ids : list string) : SmartAppHandler :=
  mkHandler (Some "app-1") (Some "token-1") (Some "refresh-1") (Some "loc-1")
            [0%nat] [] ids.

Definition world (h : SmartAppHandler) : World := mkWorld h None [].

(** A body that is not JSON, and a parser that rejects it. *)
Definition garbage : string := "{not json".
Definition parse_nothing (body : string) : option SmartAppRequest.t := None.

Definition server (h : option SmartAppHandler) : WebhookServer :=
  mkServer h None None [].

End Sample.

(** * Properties *)

(** ** Reasoning about handler code *)

(** [w'] differs from [w] only by calls added to the trace and by device ids
    appended to the registration. *)
Definition extends (w w' : World) : Prop :=
  exists ids new,
    w' = mkWorld (with_deviceIds (deviceIds (handler w) ++ ids) (handler w))
                 (disk w) (trace w ++ new).

(** What the loop of [handleEvent] does to the world from [w] to [w'] over the
    items [evs] when every create call is accepted: the created devices are
    appended to the registration, the only HTTP calls are their creates, and
    every device-state item is dispatched to every event handler. *)
Definition event_run (evs : list SmartThingsEvent.t) (w w' : World) : Prop :=
  handler w' = with_deviceIds (deviceIds (handler w) ++ createdDevices evs) (handler w)
  /\ disk w' = disk w
  /\ exists new,
       trace w' = trace w ++ new
       /\ outbound_calls new
          = map (PostDeviceSubscription (installedAppId (handler w)) (authToken (handler w)))
                (createdDevices evs)
       /\ handler_calls new
          = flat_map (dispatch_of (eventHandlers (handler w))) (deviceStateEvents evs).

(** [m] returns and touches neither the handler nor the disk. *)
Definition quiet {A} (m : M A) : Prop :=
  forall w, exists a new,
    m w = (Returned a, mkWorld (handler w) (disk w) (trace w ++ new)).

(** Whatever [m] does, every effect it adds to the trace satisfies [P]. *)
Definition confined (P : Effect -> Prop) {A} (m : M A) : Prop :=
  forall w, exists o w' new,
    m w = (o, w') /\ trace w' = trace w ++ new /\ Forall P new.

(** The effects each lifecycle kind may cause: the confirmation fetch for
    CONFIRMATION; subscription creates for INSTALL, UPDATE and EVENT; the
    bulk delete for UPDATE alone; the list call and the consumer callbacks for
    EVENT alone; nothing for any other kind. *)
Definition allowed_effect (lifecycle : string) (e : Effect) : bool :=
  match e with
  | GetConfirmationUrl _ => String.eqb lifecycle "CONFIRMATION"
  | PostDeviceSubscription _ _ _ | PostLifecycleSubscription _ _ _ =>
      String.eqb lifecycle "INSTALL" || String.eqb lifecycle "UPDATE"
      || String.eqb lifecycle "EVENT"
  | DeleteSubscriptions _ _ => String.eqb lifecycle "UPDATE"
  | GetSubscriptions _ _ => String.eqb lifecycle "EVENT"
  | EventHandlerCalled _ _ | LifecycleHandlerCalled _ _ _ _ =>
      String.eqb lifecycle "EVENT"
  end.

(** The calls the subscription methods make for a handler in state [h]: one
    create per listed id, the lifecycle subscription, the bulk delete.  Each
    is skipped when its guard finds credentials missing. *)
Definition create_requests (h : SmartAppHandler) (ids : list string) : Trace :=
  map (PostDeviceSubscription (installedAppId h) (authToken h)) ids.

Definition bulk_create_requests (h : SmartAppHandler) : Trace :=
  if missing_credentials h then [] else create_requests h (deviceIds h).

Definition lifecycle_request (h : SmartAppHandler) : Trace :=
  if missing_credentials h || negb (truthy (locationId h)) then []
  else [PostLifecycleSubscription (installedAppId h) (authToken h) (locationId h)].

Definition delete_request (h : SmartAppHandler) : Trace :=
  if missing_credentials h then []
  else [DeleteSubscriptions (installedAppId h) (authToken h)].

Definition sync_requests (env : Env) (w : World) : Trace :=
  let h := handler w in
  if missing_credentials h then []
  else match deviceIds h with
       | [] => []
       | _ :: _ =>
           GetSubscriptions (installedAppId h) (authToken h)
           :: create_requests h (filter (fun id => id ∉ remoteDeviceIds env w)
                                        (deviceIds h))
       end.

(** The credentials [handleEvent] holds after looking at its payload: those
    of the payload when it carries a non-empty token and an installed app
    (the refresh token is kept), the old ones otherwise. *)
Definition adopt_credentials (eventData : EventData.t) (h : SmartAppHandler)
  : SmartAppHandler :=
  match truthy (EventData.authToken eventData), EventData.installedApp eventData with
  | true, Some app =>
      with_credentials (Some (InstalledApp.installedAppId app))
                       (EventData.authToken eventData)
                       (refreshToken h)
                       (Some (InstalledApp.locationId app)) h
  | _, _ => h
  end.

(** [m] may throw, but whatever it does only extends the world. *)
Definition safe {A} (m : M A) : Prop :=
  forall w, exists o w', m w = (o, w') /\ extends w w'.

(** [m] returns, and only extends the world. *)
Definition benign {A} (m : M A) : Prop :=
  forall w, exists a w', m w = (Returned a, w') /\ extends w w'.

Lemma extends_refl w : extends w w.
Proof.
  exists [], []. destruct w as [[a t r l eh lh ids] d tr]; simpl.
  unfold with_deviceIds; simpl. by rewrite !app_nil_r.
Qed.

Lemma extends_trans w1 w2 w3 : extends w1 w2 -> extends w2 w3 -> extends w1 w3.
Proof.
  intros (ids1 & new1 & ->) (ids2 & new2 & ->).
  exists (ids1 ++ ids2), (new1 ++ new2). simpl.
  unfold with_deviceIds; simpl. by rewrite !app_assoc.
Qed.

Lemma extends_credentials w w' :
  extends w w' ->
  installedAppId (handler w') = installedAppId (handler w)
  /\ authToken (handler w') = authToken (handler w)
  /\ refreshToken (handler w') = refreshToken (handler w)
  /\ locationId (handler w') = locationId (handler w)
  /\ disk w' = disk w.
Proof. intros (ids & new & ->). by simpl. Qed.

Lemma benign_safe {A} (m : M A) : benign m -> safe m.
Proof. intros H w. destruct (H w) as (a & w' & E & X). eauto. Qed.

Lemma benign_ret {A} (a : A) : benign (ret a).
Proof. intros w. exists a, w. split; [done | apply extends_refl]. Qed.

Lemma safe_throw {A} e : safe (@throw A e).
Proof. intros w. exists (Thrown e), w. split; [done | apply extends_refl]. Qed.

Lemma benign_this : benign this.
Proof. intros w. exists (handler w), w. split; [done | apply extends_refl]. Qed.

Lemma benign_read_disk : benign read_disk.
Proof. intros w. exists (disk w), w. split; [done | apply extends_refl]. Qed.

Lemma benign_emit e : benign (emit e).
Proof.
  intros w. eexists _, _. split; [reflexivity |].
  exists [], [e]. destruct w as [[a t r l eh lh ids] d tr]; simpl.
  unfold with_deviceIds; simpl. by rewrite app_nil_r.
Qed.

Lemma benign_push id :
  benign (update (fun h => with_deviceIds (deviceIds h ++ [id]) h)).
Proof.
  intros w. eexists _, _. split; [reflexivity |].
  exists [id], []. simpl. by rewrite app_nil_r.
Qed.

Lemma benign_bind {A B} (m : M A) (k : A -> M B) :
  benign m -> (forall a, benign (k a)) -> benign (bind m k).
Proof.
  intros Hm Hk w. destruct (Hm w) as (a & w1 & E1 & X1).
  destruct (Hk a w1) as (b & w2 & E2 & X2).
  exists b, w2. unfold bind. rewrite E1, E2. eauto using extends_trans.
Qed.

Lemma safe_bind {A B} (m : M A) (k : A -> M B) :
  safe m -> (forall a, safe (k a)) -> safe (bind m k).
Proof.
  intros Hm Hk w. destruct (Hm w) as (o & w1 & E1 & X1). unfold bind. rewrite E1.
  destruct o as [a | e]; [| eauto].
  destruct (Hk a w1) as (o2 & w2 & E2 & X2). rewrite E2. eauto using extends_trans.
Qed.

Lemma benign_try_catch {A} (m : M A) (h : Error -> M A) :
  safe m -> (forall e, benign (h e)) -> benign (try_catch m h).
Proof.
  intros Hm Hh w. destruct (Hm w) as (o & w1 & E1 & X1). unfold try_catch. rewrite E1.
  destruct o as [a | e]; [eauto |].
  destruct (Hh e w1) as (b & w2 & E2 & X2). rewrite E2. eauto using extends_trans.
Qed.

Lemma safe_try_catch {A} (m : M A) (h : Error -> M A) :
  safe m -> (forall e, safe (h e)) -> safe (try_catch m h).
Proof.
  intros Hm Hh w. destruct (Hm w) as (o & w1 & E1 & X1). unfold try_catch. rewrite E1.
  destruct o as [a | e]; [eauto |].
  destruct (Hh e w1) as (b & w2 & E2 & X2). rewrite E2. eauto using extends_trans.
Qed.

Lemma benign_for_each {A} (l : list A) (body : A -> M unit) :
  (forall x, benign (body x)) -> benign (for_each l body).
Proof.
  intros Hb. induction l as [| x l IH]; simpl.
  - apply benign_ret.
  - apply benign_bind; [apply Hb | intros _; apply IH].
Qed.

Create HintDb handler_db.
#[local] Hint Resolve benign_ret benign_this benign_read_disk benign_emit benign_push
  safe_throw benign_safe : handler_db.

(** Break a handler body along its binds, conditionals and handlers. *)
Ltac walk :=
  repeat first
    [ progress eauto with handler_db
    | apply benign_bind; [| intros ?]
    | apply safe_bind; [| intros ?]
    | apply benign_try_catch; [| intros ?]
    | apply safe_try_catch; [| intros ?]
    | apply benign_for_each; intros ?
    | match goal with
      | |- benign (if ?c then _ else _) => destruct c
      | |- safe (if ?c then _ else _) => destruct c
      | |- benign (match ?x with _ => _ end) => destruct x
      | |- safe (match ?x with _ => _ end) => destruct x
      end ].

Section HandlerLemmas.

Variable env : Env.

Lemma safe_createDeviceSubscription id : safe (createDeviceSubscription env id).
Proof. unfold createDeviceSubscription. walk. Qed.
Hint Resolve safe_createDeviceSubscription : handler_db.

Lemma benign_create_each ids : benign (create_each env ids).
Proof.
  unfold create_each. walk.
Qed.
Hint Resolve benign_create_each : handler_db.

Lemma benign_getExistingSubscriptions : benign (getExistingSubscriptions env).
Proof. unfold getExistingSubscriptions. walk. Qed.
Hint Resolve benign_getExistingSubscriptions : handler_db.

Lemma benign_createDeviceLifecycleSubscription :
  benign (createDeviceLifecycleSubscription env).
Proof. unfold createDeviceLifecycleSubscription. walk. Qed.
Hint Resolve benign_createDeviceLifecycleSubscription : handler_db.

Lemma benign_deleteAllSubscriptions : benign (deleteAllSubscriptions env).
Proof. unfold deleteAllSubscriptions. walk. Qed.
Hint Resolve benign_deleteAllSubscriptions : handler_db.

Lemma benign_createDeviceSubscriptions : benign (createDeviceSubscriptions env).
Proof. unfold createDeviceSubscriptions. walk. Qed.
Hint Resolve benign_createDeviceSubscriptions : handler_db.

Lemma benign_syncDeviceSubscriptions : benign (syncDeviceSubscriptions env).
Proof.
  unfold syncDeviceSubscriptions. walk.
Qed.
Hint Resolve benign_syncDeviceSubscriptions : handler_db.

Lemma benign_syncPendingSubscriptions : benign (syncPendingSubscriptions env).
Proof.
  unfold syncPendingSubscriptions. walk.
Qed.
Hint Resolve benign_syncPendingSubscriptions : handler_db.

Lemma benign_notifyEventHandlers ev : benign (notifyEventHandlers ev).
Proof. unfold notifyEventHandlers. walk. Qed.
Hint Resolve benign_notifyEventHandlers : handler_db.

Lemma benign_notifyDeviceLifecycleHandlers lc id name :
  benign (notifyDeviceLifecycleHandlers lc id name).
Proof. unfold notifyDeviceLifecycleHandlers. walk. Qed.
Hint Resolve benign_notifyDeviceLifecycleHandlers : handler_db.

Lemma benign_process_event ev : benign (process_event env ev).
Proof.
  unfold process_event. walk.
Qed.
Hint Resolve benign_process_event : handler_db.

Lemma benign_handleConfirmation request : benign (handleConfirmation env request).
Proof. unfold handleConfirmation. walk. Qed.
Hint Resolve benign_handleConfirmation : handler_db.

End HandlerLemmas.

(** ** PING *)

(** C8. A PING message with a non-empty challenge is answered 200 with
    that very challenge; a PING without challenge (no [pingData], or an empty
    string) is answered 400.  In both
    cases the world (credentials, registration, disk, trace) is untouched and
    the answer is the same in every world and against every platform. *)
Theorem ping_echoes_challenge (env : Env) (request : SmartAppRequest.t) (w : World) :
  SmartAppRequest.lifecycle request = "PING" ->
  (forall p, SmartAppRequest.pingData request = Some p ->
             PingData.challenge p <> "" ->
             handleRequest env request w
             = (Returned (mkResponse 200 (PingDataOut (PingData.challenge p))), w))
  /\ (SmartAppRequest.pingData request = None
      \/ (exists p, SmartAppRequest.pingData request = Some p
                    /\ PingData.challenge p = "") ->
      handleRequest env request w = (Returned (mkResponse 400 NoData), w))
  /\ (forall env' w',
        snd (handleRequest env request w) = w
        /\ fst (handleRequest env' request w') = fst (handleRequest env request w)).
Proof.
  intros Hl. unfold handleRequest. rewrite Hl. simpl.
  split; [| split].
  - intros p Hp Hc. unfold ret, handlePing. rewrite Hp.
    unfold truthy_string.
    destruct (String.eqb_spec (PingData.challenge p) ""); [contradiction | done].
  - intros [Hp | (p & Hp & Hc)]; unfold ret, handlePing; rewrite Hp; [done |].
    by rewrite Hc.
  - intros env' w'. by unfold ret.
Qed.

Lemma ping_echoes_challenge_witness :
  handleRequest Sample.conflicting (Sample.ping "c0ffee") (Sample.world initial_handler)
  = (Returned (mkResponse 200 (PingDataOut "c0ffee")), Sample.world initial_handler)
  /\ handleRequest Sample.friendly (Sample.request "PING")
       (Sample.world (Sample.installed ["d1"]))
     = (Returned (mkResponse 400 NoData), Sample.world (Sample.installed ["d1"])).
Proof.
  split.
  - refine (proj1 (ping_echoes_challenge Sample.conflicting (Sample.ping "c0ffee")
                     (Sample.world initial_handler) _)
                  (PingData.mk "c0ffee") _ _).
    + reflexivity.
    + reflexivity.
    + simpl. discriminate.
  - refine (proj1 (proj2 (ping_echoes_challenge Sample.friendly (Sample.request "PING")
                            (Sample.world (Sample.installed ["d1"])) _)) _).
    + reflexivity.
    + left. reflexivity.
Defined.

(** ** Unknown lifecycle kinds *)

(** C10. A message whose discriminant is none of the seven known kinds
    falls to the [default] branch: the answer is 200 and nothing changes, no
    credentials, no registration, no file, no outbound call. *)
Theorem unknown_lifecycle_is_ignored (env : Env) (request : SmartAppRequest.t) (w : World) :
  SmartAppRequest.lifecycle request ∉ known_lifecycles ->
  handleRequest env request w = (Returned (mkResponse 200 NoData), w).
Proof.
  intros Hk. unfold handleRequest.
  repeat match goal with
  | |- context [String.eqb ?a ?b] =>
      destruct (String.eqb_spec a b) as [E | _];
      [exfalso; apply Hk; rewrite E; unfold known_lifecycles; set_solver |]
  end.
  reflexivity.
Qed.

Lemma unknown_lifecycle_is_ignored_witness :
  handleRequest Sample.friendly (Sample.request "EXECUTE") (Sample.world (Sample.installed ["d1"]))
  = (Returned (mkResponse 200 NoData), Sample.world (Sample.installed ["d1"])).
Proof.
  apply (unknown_lifecycle_is_ignored Sample.friendly (Sample.request "EXECUTE")).
  simpl. unfold known_lifecycles. intros H.
  repeat (apply elem_of_cons in H; destruct H as [H | H]; [discriminate H |]).
  by apply elem_of_nil in H.
Defined.

(** ** Malformed bodies on the lifecycle endpoint *)

(** C9, as the code has it.  A body that does not parse never reaches the
    lifecycle handler: the server, its handler, the storage and the trace are
    exactly what they were.  The status is 400 when the server owns a handler
    and 500 when it owns none (direct webhooks switched off), where the body
    is not even looked at. *)
Theorem malformed_body_is_rejected
    (JSON_parse : string -> option SmartAppRequest.t) (env : Env)
    (body : string) (s : WebhookServer) :
  JSON_parse body = None ->
  snd (handleSmartAppRequest JSON_parse env body s) = s
  /\ status (fst (handleSmartAppRequest JSON_parse env body s))
     = match smartAppHandler s with Some _ => 400 | None => 500 end
  /\ (is_Some (smartAppHandler s) ->
      fst (handleSmartAppRequest JSON_parse env body s)
      = mkHttp 400 (ErrorBody "Invalid request body")).
Proof.
  intros Hp. unfold handleSmartAppRequest. rewrite Hp.
  destruct (smartAppHandler s) as [h |]; simpl.
  - done.
  - do 2 (split; [done |]). by intros [h Hh].
Qed.

Lemma malformed_body_is_rejected_witness :
  fst (handleSmartAppRequest Sample.parse_nothing Sample.friendly Sample.garbage
         (Sample.server (Some (Sample.installed ["d1"]))))
  = mkHttp 400 (ErrorBody "Invalid request body").
Proof.
  refine (proj2 (proj2 (malformed_body_is_rejected Sample.parse_nothing Sample.friendly
                          Sample.garbage
                          (Sample.server (Some (Sample.installed ["d1"]))) _)) _).
  - reflexivity.
  - simpl. eexists. reflexivity.
Defined.

(** C9 as stated fails on a server without a handler: the unparsable body is
    answered 500, not 400. *)
Lemma malformed_body_without_handler :
  Sample.parse_nothing Sample.garbage = None
  /\ status (fst (handleSmartAppRequest Sample.parse_nothing Sample.friendly
                    Sample.garbage (Sample.server None))) = 500
  /\ status (fst (handleSmartAppRequest Sample.parse_nothing Sample.friendly
                    Sample.garbage (Sample.server None))) <> 400.
Proof. vm_compute. repeat split; discriminate. Qed.

(** ** Missing-only reconciliation *)

Section Reconciliation.

Variable env : Env.

Lemma world_eta (w : World) : mkWorld (handler w) (disk w) (trace w) = w.
Proof. by destruct w. Qed.

Lemma issued_app w h d new : issued w (mkWorld h d (trace w ++ new)) = new.
Proof. unfold issued; simpl. apply drop_app_length. Qed.

(** One round of the creation loop is one POST, whatever the answer. *)
Lemma create_one id w :
  try_catch (createDeviceSubscription env id) (fun _ => ret tt) w
  = (Returned tt,
     mkWorld (handler w) (disk w)
       (trace w ++ [PostDeviceSubscription (installedAppId (handler w))
                      (authToken (handler w)) id])).
Proof.
  unfold createDeviceSubscription, try_catch, bind, this, emit, ret, throw; simpl.
  destruct (post_reply env _) as [| st]; [done |].
  by destruct (is_409 st).
Qed.

Lemma create_each_exact ids w :
  create_each env ids w
  = (Returned tt,
     mkWorld (handler w) (disk w)
       (trace w ++ map (PostDeviceSubscription (installedAppId (handler w))
                          (authToken (handler w))) ids)).
Proof.
  revert w. induction ids as [| id ids IH]; intros w.
  - simpl. unfold ret. by rewrite app_nil_r, world_eta.
  - unfold create_each in *. simpl. unfold bind at 1.
    rewrite create_one, IH. simpl. by rewrite <- app_assoc.
Qed.

Lemma create_calls_posts a t ids :
  create_calls (map (PostDeviceSubscription a t) ids) = ids.
Proof. induction ids as [| id ids IH]; simpl; [done | by rewrite IH]. Qed.

(** The whole run, call by call: nothing without registered devices,
    otherwise the list call followed by one create per registered entry
    that the answer does not cover. *)
Lemma sync_exact w :
  missing_credentials (handler w) = false ->
  syncDeviceSubscriptions env w
  = (Returned tt,
     mkWorld (handler w) (disk w)
       (trace w ++
          match deviceIds (handler w) with
          | [] => []
          | _ :: _ =>
              GetSubscriptions (installedAppId (handler w)) (authToken (handler w))
              :: map (PostDeviceSubscription (installedAppId (handler w))
                        (authToken (handler w)))
                     (filter (fun id => id ∉ remoteDeviceIds env w)
                             (deviceIds (handler w)))
          end)).
Proof.
  intros Hc. unfold syncDeviceSubscriptions, bind at 1, this at 1. simpl. rewrite Hc.
  destruct (deviceIds (handler w)) as [| d0 ds] eqn:HD; simpl.
  { unfold ret. by rewrite app_nil_r, world_eta. }
  unfold bind at 1.
  assert (HG : getExistingSubscriptions env w
               = (Returned (remoteDeviceIds env w),
                  mkWorld (handler w) (disk w)
                    (trace w ++ [GetSubscriptions (installedAppId (handler w))
                                   (authToken (handler w))]))).
  { unfold getExistingSubscriptions, bind at 1, this at 1. simpl. rewrite Hc.
    unfold try_catch, bind, emit, remoteDeviceIds, ret, throw. simpl.
    by destruct (list_reply env _). }
  rewrite HG. unfold bind at 1, this at 1. simpl. rewrite HD.
  set (missing := filter _ (d0 :: ds)).
  destruct missing as [| m ms] eqn:HM; simpl.
  - unfold ret. reflexivity.
  - rewrite create_each_exact. simpl. by rewrite <- app_assoc.
Qed.

Lemma missing_size (D : list string) (R : gset string) :
  NoDup D ->
  length (filter (fun id => id ∉ R) D) = size (list_to_set D ∖ R : gset string).
Proof.
  intros HD.
  replace (list_to_set D ∖ R : gset string)
    with (list_to_set (filter (fun id => id ∉ R) D) : gset string).
  - symmetry. apply size_list_to_set. by apply NoDup_filter.
  - apply set_eq. intros x.
    rewrite elem_of_difference, !elem_of_list_to_set, list_elem_of_filter. tauto.
Qed.

Lemma missing_none (D : list string) (R : gset string) :
  (list_to_set D : gset string) ⊆ R -> filter (fun id => id ∉ R) D = [].
Proof.
  intros HS. induction D as [| d D IH]; [done |].
  rewrite filter_cons. destruct (decide (d ∉ R)) as [Hn | _].
  - exfalso. apply Hn. set_solver.
  - apply IH. set_solver.
Qed.

End Reconciliation.

(** C1, as the code has it.  With credentials present, one run of
    [syncDeviceSubscriptions] issues one create call for every entry of the
    registration list that the remote answer does not cover, in list order.
    When no id is registered twice that is exactly |D − R| calls; when D ⊆ R
    there is none.  (R is empty when the remote list call fails.) *)
Theorem reconciliation_creates_missing (env : Env) (w : World) :
  missing_credentials (handler w) = false ->
  let D := deviceIds (handler w) in
  let R := remoteDeviceIds env w in
  let calls := create_calls (issued w (snd (syncDeviceSubscriptions env w))) in
  calls = filter (fun id => id ∉ R) D
  /\ (NoDup D -> length calls = size (list_to_set D ∖ R : gset string))
  /\ ((list_to_set D : gset string) ⊆ R -> length calls = 0%nat).
Proof.
  intros Hc D R calls.
  assert (E : calls = filter (fun id => id ∉ R) D).
  { subst calls. rewrite (sync_exact env w Hc). simpl. rewrite issued_app.
    subst D R. destruct (deviceIds (handler w)) as [| d0 ds]; [done |].
    simpl. apply create_calls_posts. }
  split; [exact E |]. rewrite E. split.
  - apply missing_size.
  - intros HS. by rewrite missing_none.
Qed.

Lemma reconciliation_creates_missing_witness :
  let w := Sample.world (Sample.installed ["d1"; "d2"; "d3"]) in
  let calls env := create_calls (issued w (snd (syncDeviceSubscriptions env w))) in
  calls (Sample.listing ["d2"]) = ["d1"; "d3"]
  /\ length (calls (Sample.listing ["d2"]))
     = size (list_to_set ["d1"; "d2"; "d3"]
               ∖ remoteDeviceIds (Sample.listing ["d2"]) w : gset string)
  /\ length (calls (Sample.listing ["d3"; "d2"; "d1"; "d0"])) = 0%nat.
Proof.
  intros w calls. split; [| split].
  - refine (eq_trans
              (proj1 (reconciliation_creates_missing (Sample.listing ["d2"]) w _)) _).
    + reflexivity.
    + vm_compute. reflexivity.
  - refine (proj1 (proj2 (reconciliation_creates_missing (Sample.listing ["d2"]) w _)) _).
    + reflexivity.
    + apply (bool_decide_unpack _). vm_compute. reflexivity.
  - refine (proj2 (proj2 (reconciliation_creates_missing
                            (Sample.listing ["d3"; "d2"; "d1"; "d0"]) w _)) _).
    + reflexivity.
    + apply (bool_decide_unpack _). vm_compute. reflexivity.
Defined.

(** C1 as stated fails when an id is registered twice: the registration
    ["d1"; "d1"] against an empty remote set yields two create calls, while
    |D − R| is one. *)
Lemma reconciliation_counts_duplicates :
  missing_credentials (Sample.installed ["d1"; "d1"]) = false
  /\ length (create_calls
               (issued (Sample.world (Sample.installed ["d1"; "d1"]))
                  (snd (syncDeviceSubscriptions Sample.friendly
                          (Sample.world (Sample.installed ["d1"; "d1"]))))))
     = 2%nat
  /\ size (list_to_set (deviceIds (Sample.installed ["d1"; "d1"]))
             ∖ remoteDeviceIds Sample.friendly
                 (Sample.world (Sample.installed ["d1"; "d1"])) : gset string)
     = 1%nat.
Proof. vm_compute. done. Qed.

(** ** Event processing *)

Section Events.

Variable env : Env.
Hypothesis creates_accepted : forall t, accepted (post_reply env t) = true.

Lemma with_deviceIds_same h : with_deviceIds (deviceIds h ++ []) h = h.
Proof. destruct h; unfold with_deviceIds; simpl. by rewrite app_nil_r. Qed.

Lemma createDeviceSubscription_accepted id w :
  createDeviceSubscription env id w
  = (Returned tt,
     mkWorld (handler w) (disk w)
       (trace w ++ [PostDeviceSubscription (installedAppId (handler w))
                      (authToken (handler w)) id])).
Proof.
  unfold createDeviceSubscription, try_catch, bind, this, emit, ret, throw; simpl.
  pose proof (creates_accepted
    (trace w ++ [PostDeviceSubscription (installedAppId (handler w))
                   (authToken (handler w)) id])) as Ha.
  destruct (post_reply env _) as [| st]; [done |].
  simpl in Ha. by rewrite Ha.
Qed.

Lemma call_each_exact (mk : nat -> Effect) (hs : list nat) w :
  for_each hs (fun k => _ <- emit (mk k) ;; ret tt) w
  = (Returned tt, mkWorld (handler w) (disk w) (trace w ++ map mk hs)).
Proof.
  revert w. induction hs as [| k hs IH]; intros w; simpl.
  - unfold ret. by rewrite app_nil_r, world_eta.
  - unfold bind at 1. unfold bind at 1, emit, ret at 1. simpl.
    rewrite IH. simpl. by rewrite <- app_assoc.
Qed.

Lemma outbound_event_calls ev hs :
  outbound_calls (map (fun k => EventHandlerCalled k ev) hs) = [].
Proof. induction hs; simpl; auto. Qed.

Lemma outbound_lifecycle_calls lc id name hs :
  outbound_calls (map (fun k => LifecycleHandlerCalled k lc id name) hs) = [].
Proof. induction hs; simpl; auto. Qed.

Lemma handler_calls_event_calls ev hs :
  handler_calls (map (fun k => EventHandlerCalled k ev) hs) = dispatch_of hs ev.
Proof. induction hs as [| k hs IH]; simpl; [done | by rewrite IH]. Qed.

Lemma handler_calls_lifecycle_calls lc id name hs :
  handler_calls (map (fun k => LifecycleHandlerCalled k lc id name) hs) = [].
Proof. induction hs; simpl; auto. Qed.

Lemma event_run_nil w : event_run [] w w.
Proof.
  unfold event_run; simpl. rewrite with_deviceIds_same.
  do 2 (split; [done |]). exists []. by rewrite app_nil_r.
Qed.

Lemma event_run_app evs1 evs2 w w1 w2 :
  event_run evs1 w w1 -> event_run evs2 w1 w2 -> event_run (evs1 ++ evs2) w w2.
Proof.
  intros (H1 & D1 & n1 & T1 & O1 & C1) (H2 & D2 & n2 & T2 & O2 & C2).
  unfold event_run. unfold createdDevices, deviceStateEvents in *.
  rewrite !flat_map_app.
  rewrite H1 in H2, O2, C2. simpl in H2, O2, C2.
  split; [| split; [congruence |]].
  - rewrite H2. unfold with_deviceIds; simpl. by rewrite app_assoc.
  - exists (n1 ++ n2). split; [| split].
    + rewrite T2, T1. by rewrite app_assoc.
    + unfold outbound_calls in *. rewrite List.filter_app, O1, O2.
      by rewrite map_app.
    + unfold handler_calls in *. by rewrite flat_map_app, C1, C2.
Qed.

(** The branch of the loop body for an item that is not a device-state
    event: ignored unless it is a lifecycle event, which is forwarded to the
    lifecycle consumers after the create call of a CREATE. *)
Ltac lifecycle_item ev :=
  let le := fresh "le" in
  destruct (String.eqb (SmartThingsEvent.eventType ev) "DEVICE_LIFECYCLE_EVENT");
    [| eexists; split; [reflexivity | apply event_run_nil]];
  destruct (SmartThingsEvent.deviceLifecycleEvent ev) as [le |];
    [| eexists; split; [reflexivity | apply event_run_nil]];
  destruct (String.eqb (DeviceLifecycleEvent.lifecycle le) "CREATE");
    [ unfold bind at 1, try_catch, bind at 1;
      rewrite createDeviceSubscription_accepted; unfold update at 1; simpl;
      unfold notifyDeviceLifecycleHandlers, bind at 1, this at 1;
      rewrite call_each_exact; eexists; split; [reflexivity |]; simpl;
      do 2 (split; [done |]); eexists; split; [by rewrite <- app_assoc |];
      simpl; by rewrite outbound_lifecycle_calls, handler_calls_lifecycle_calls
    | unfold bind at 1, ret at 1;
      unfold notifyDeviceLifecycleHandlers, bind at 1, this at 1;
      rewrite call_each_exact; eexists; split; [reflexivity |]; simpl;
      rewrite with_deviceIds_same;
      do 2 (split; [done |]); eexists; split; [reflexivity |];
      by rewrite outbound_lifecycle_calls, handler_calls_lifecycle_calls ].

(** One round of the loop. *)
Lemma process_event_exact ev w :
  exists w', process_event env ev w = (Returned tt, w') /\ event_run [ev] w w'.
Proof.
  unfold process_event, event_run, createdDevices, deviceStateEvents. simpl.
  destruct (String.eqb (SmartThingsEvent.eventType ev) "DEVICE_EVENT") eqn:E1,
           (SmartThingsEvent.deviceEvent ev) as [de |] eqn:E2.
  - unfold notifyEventHandlers, bind at 1, this at 1. rewrite call_each_exact.
    eexists. split; [reflexivity |]. simpl. rewrite with_deviceIds_same.
    do 2 (split; [done |]). eexists. split; [reflexivity |].
    by rewrite outbound_event_calls, handler_calls_event_calls, app_nil_r.
  - lifecycle_item ev.
  - lifecycle_item ev.
  - lifecycle_item ev.
Qed.

Lemma events_exact evs w :
  exists w', for_each evs (process_event env) w = (Returned tt, w')
             /\ event_run evs w w'.
Proof.
  revert w. induction evs as [| ev evs IH]; intros w.
  - exists w. split; [done | apply event_run_nil].
  - destruct (process_event_exact ev w) as (w1 & E1 & R1).
    destruct (IH w1) as (w2 & E2 & R2).
    exists w2. simpl. unfold bind. rewrite E1. split; [exact E2 |].
    change (ev :: evs) with ([ev] ++ evs). eapply event_run_app; eauto.
Qed.

End Events.

(** With credentials already present, an EVENT message runs no
    reconciliation: after the credentials of the payload are adopted (or kept,
    when the payload lacks them) only the loop over the items remains. *)
Lemma handleEvent_installed (env : Env) request eventData w :
  SmartAppRequest.lifecycle request = "EVENT" ->
  SmartAppRequest.eventData request = Some eventData ->
  isInstalled (handler w) = true ->
  exists w1,
    trace w1 = trace w
    /\ deviceIds (handler w1) = deviceIds (handler w)
    /\ eventHandlers (handler w1) = eventHandlers (handler w)
    /\ handleRequest env request w
       = bind (for_each (EventData.events eventData) (process_event env))
              (fun _ => ret (mkResponse 200 EventDataOut)) w1.
Proof.
  intros Hl Hed Hin. unfold handleRequest. rewrite Hl. simpl.
  unfold handleEvent. rewrite Hed. unfold bind at 1, this at 1. rewrite Hin. simpl.
  destruct (truthy (EventData.authToken eventData));
    [| exists w; by unfold bind at 1, ret at 1].
  destruct (EventData.installedApp eventData) as [app |];
    [| exists w; by unfold bind at 1, ret at 1].
  exists (mkWorld
            (with_credentials (Some (InstalledApp.installedAppId app))
               (EventData.authToken eventData) (refreshToken (handler w))
               (Some (InstalledApp.locationId app)) (handler w))
            (disk w) (trace w)).
  by unfold bind at 1, bind at 1, update at 1, ret at 1.
Qed.

(** C6. An EVENT message with three device-state items and one lifecycle
    CREATE item, handled while credentials are present and with creates
    accepted by the platform, is answered 200; every registered event handler
    receives exactly the three normalized events, in order; the only outbound
    call is the one subscription create for the created device; and that
    device id is appended to the registration. *)
Theorem event_dispatch_and_subscribe
    (env : Env) (request : SmartAppRequest.t) (eventData : EventData.t) (w : World) :
  SmartAppRequest.lifecycle request = "EVENT" ->
  SmartAppRequest.eventData request = Some eventData ->
  isInstalled (handler w) = true ->
  (forall t, accepted (post_reply env t) = true) ->
  length (deviceStateEvents (EventData.events eventData)) = 3%nat ->
  length (createdDevices (EventData.events eventData)) = 1%nat ->
  let result := handleRequest env request w in
  let w' := snd result in
  let hs := eventHandlers (handler w) in
  fst result = Returned (mkResponse 200 EventDataOut)
  /\ exists e1 e2 e3 id,
       deviceStateEvents (EventData.events eventData) = [e1; e2; e3]
       /\ createdDevices (EventData.events eventData) = [id]
       /\ handler_calls (issued w w')
          = dispatch_of hs e1 ++ dispatch_of hs e2 ++ dispatch_of hs e3
       /\ outbound_calls (issued w w')
          = [PostDeviceSubscription (installedAppId (handler w'))
                                    (authToken (handler w')) id]
       /\ deviceIds (handler w') = deviceIds (handler w) ++ [id].
Proof.
  intros Hl Hed Hin Hacc H3 H1 result w' hs.
  destruct (handleEvent_installed env request eventData w Hl Hed Hin)
    as (w1 & Ht & Hd & Hh & Heq).
  destruct (events_exact env Hacc (EventData.events eventData) w1)
    as (w2 & E & HH & _ & new & HT & HO & HC).
  assert (Hres : result = (Returned (mkResponse 200 EventDataOut), w2)).
  { subst result. rewrite Heq. unfold bind. by rewrite E. }
  subst w'. rewrite Hres. simpl. split; [done |].
  destruct (deviceStateEvents (EventData.events eventData))
    as [| e1 [| e2 [| e3 [| ? ?]]]]; try discriminate H3.
  destruct (createdDevices (EventData.events eventData))
    as [| id [| ? ?]]; try discriminate H1.
  exists e1, e2, e3, id. do 2 (split; [done |]).
  unfold issued. rewrite HT, Ht, drop_app_length, HC, HO, HH. subst hs.
  simpl. by rewrite app_nil_r, Hh, Hd.
Qed.

Lemma event_dispatch_and_subscribe_witness :
  fst (handleRequest Sample.friendly Sample.eventMessage
         (Sample.world (Sample.installed ["d1"; "d2"])))
  = Returned (mkResponse 200 EventDataOut).
Proof.
  refine (proj1 (event_dispatch_and_subscribe Sample.friendly Sample.eventMessage
                   (EventData.mk (Some "token-2")
                      (Some (InstalledApp.mk "app-1" "loc-1")) Sample.items)
                   (Sample.world (Sample.installed ["d1"; "d2"])) _ _ _ _ _ _));
    reflexivity.
Defined.

(** The same message, run: one handler, three deliveries, one create. *)
Example event_message_run :
  let w := Sample.world (Sample.installed ["d1"; "d2"]) in
  let w' := snd (handleRequest Sample.friendly Sample.eventMessage w) in
  map fst (handler_calls (trace w')) = [0; 0; 0]%nat
  /\ outbound_calls (trace w')
     = [PostDeviceSubscription (Some "app-1") (Some "token-2") "d9"]
  /\ deviceIds (handler w') = ["d1"; "d2"; "d9"].
Proof. vm_compute. done. Qed.

(** ** Credentials through the lifecycle *)

Section Lifecycle.

Variable env : Env.

Lemma bind_returned {A B} (m : M A) (k : A -> M B) w a w' :
  m w = (Returned a, w') -> bind m k w = k a w'.
Proof. intros E. unfold bind. by rewrite E. Qed.

Lemma quiet_bind {A B} (m : M A) (k : A -> M B) :
  quiet m -> (forall a, quiet (k a)) -> quiet (bind m k).
Proof.
  intros Hm Hk w. destruct (Hm w) as (a & n1 & E1).
  destruct (Hk a (mkWorld (handler w) (disk w) (trace w ++ n1))) as (b & n2 & E2).
  exists b, (n1 ++ n2). rewrite (bind_returned _ _ _ _ _ E1), E2. simpl.
  by rewrite app_assoc.
Qed.

Lemma quiet_ret {A} (a : A) : quiet (ret a).
Proof. intros w. exists a, []. unfold ret. by rewrite app_nil_r, world_eta. Qed.

Lemma quiet_createDeviceSubscriptions : quiet (createDeviceSubscriptions env).
Proof.
  intros w. unfold createDeviceSubscriptions, bind at 1, this at 1.
  destruct (missing_credentials (handler w)); [apply quiet_ret |].
  destruct (Nat.eqb _ 0); [apply quiet_ret |].
  rewrite create_each_exact. eauto.
Qed.

Lemma quiet_createDeviceLifecycleSubscription :
  quiet (createDeviceLifecycleSubscription env).
Proof.
  intros w. unfold createDeviceLifecycleSubscription, bind at 1, this at 1.
  destruct (_ || _); [apply quiet_ret |].
  unfold try_catch, bind, emit, ret, throw. simpl.
  destruct (post_reply env _); eauto.
Qed.

Lemma quiet_deleteAllSubscriptions : quiet (deleteAllSubscriptions env).
Proof.
  intros w. unfold deleteAllSubscriptions, bind at 1, this at 1.
  destruct (missing_credentials (handler w)); [apply quiet_ret |].
  unfold try_catch, bind, emit, ret, throw. simpl.
  destruct (delete_reply env _); eauto.
Qed.

Lemma quiet_benign {A} (m : M A) : quiet m -> benign m.
Proof.
  intros H w. destruct (H w) as (a & new & E). exists a. eexists. split; [exact E |].
  exists [], new. by rewrite with_deviceIds_same.
Qed.

(** What [saveCredentials] leaves on disk. *)
Lemma saveCredentials_exact w :
  saveCredentials env w
  = (Returned tt,
     mkWorld (handler w)
       (if disk_writable env
        then Some (Parsed (credentials_record (handler w) (now env)))
        else disk w)
       (trace w)).
Proof.
  unfold saveCredentials, bind, this, write_disk, ret.
  destruct (disk_writable env); [done | by rewrite world_eta].
Qed.

(** INSTALL with its payload: the credentials are those of the payload, the
    file is rewritten when the disk allows, the registration is untouched,
    and the answer is 200 whatever the platform replies. *)
Lemma handleInstall_exact request data w :
  SmartAppRequest.installData request = Some data ->
  exists new,
    handleInstall env request w
    = (Returned (mkResponse 200 InstallDataOut),
       mkWorld (install_credentials data (handler w))
         (if disk_writable env
          then Some (Parsed (credentials_record
                               (install_credentials data (handler w)) (now env)))
          else disk w)
         (trace w ++ new)).
Proof.
  intros Hd. unfold handleInstall. rewrite Hd.
  unfold store_credentials, bind at 1, update at 1.
  rewrite (bind_returned _ _ _ _ _ (saveCredentials_exact _)). simpl.
  match goal with
  | |- context [bind ?m ?k ?w0] =>
      destruct (quiet_bind m k quiet_createDeviceSubscriptions
                  (fun _ => quiet_bind _ _ quiet_createDeviceLifecycleSubscription
                              (fun _ => quiet_ret _)) w0) as (a & new & E)
  end.
  exists new. rewrite E. simpl.
  unfold bind in E.
  destruct (createDeviceSubscriptions env _) as [[[] | ?] ?]; [| discriminate E].
  destruct (createDeviceLifecycleSubscription env _) as [[[] | ?] ?]; [| discriminate E].
  unfold ret in E. by inversion E.
Qed.

Lemma handleUpdate_exact request data w :
  SmartAppRequest.updateData request = Some data ->
  exists new,
    handleUpdate env request w
    = (Returned (mkResponse 200 UpdateDataOut),
       mkWorld (install_credentials data (handler w))
         (if disk_writable env
          then Some (Parsed (credentials_record
                               (install_credentials data (handler w)) (now env)))
          else disk w)
         (trace w ++ new)).
Proof.
  intros Hd. unfold handleUpdate. rewrite Hd.
  unfold store_credentials, bind at 1, update at 1.
  rewrite (bind_returned _ _ _ _ _ (saveCredentials_exact _)). simpl.
  match goal with
  | |- context [bind ?m ?k ?w0] =>
      destruct (quiet_bind m k quiet_deleteAllSubscriptions
                  (fun _ => quiet_bind _ _ quiet_createDeviceSubscriptions
                     (fun _ => quiet_bind _ _ quiet_createDeviceLifecycleSubscription
                                 (fun _ => quiet_ret _))) w0) as (a & new & E)
  end.
  exists new. rewrite E. simpl.
  unfold bind in E.
  destruct (deleteAllSubscriptions env _) as [[[] | ?] ?]; [| discriminate E].
  destruct (createDeviceSubscriptions env _) as [[[] | ?] ?]; [| discriminate E].
  destruct (createDeviceLifecycleSubscription env _) as [[[] | ?] ?]; [| discriminate E].
  unfold ret in E. by inversion E.
Qed.

End Lifecycle.

(** C5. Handling the same INSTALL message twice, against whatever the
    platform answers each time, returns 200 both times without throwing; the
    handler after the second call is the handler after the first (the
    credentials are those of the payload), and, the disk being writable, so
    are the four credential fields of the file.  A create call answered 409
    returns normally. *)
Theorem install_twice_is_idempotent
    (env1 env2 : Env) (request : SmartAppRequest.t) (data : InstallData.t) (w : World) :
  SmartAppRequest.lifecycle request = "INSTALL" ->
  SmartAppRequest.installData request = Some data ->
  let first := handleRequest env1 request w in
  let second := handleRequest env2 request (snd first) in
  fst first = Returned (mkResponse 200 InstallDataOut)
  /\ fst second = Returned (mkResponse 200 InstallDataOut)
  /\ handler (snd second) = handler (snd first)
  /\ handler (snd first) = install_credentials data (handler w)
  /\ (disk_writable env1 = true -> disk_writable env2 = true ->
      durable_agrees (snd first) /\ durable_agrees (snd second))
  /\ (forall id w0,
        post_reply env2
          (trace w0 ++ [PostDeviceSubscription (installedAppId (handler w0))
                          (authToken (handler w0)) id])
        = Rejected (Some 409) ->
        fst (createDeviceSubscription env2 id w0) = Returned tt).
Proof.
  intros Hl Hd first second.
  assert (E1 : first = handleInstall env1 request w).
  { subst first. unfold handleRequest. by rewrite Hl. }
  destruct (handleInstall_exact env1 request data w Hd) as (n1 & X1).
  rewrite X1 in E1.
  assert (E2 : second = handleInstall env2 request (snd first)).
  { subst second. unfold handleRequest. by rewrite Hl. }
  destruct (handleInstall_exact env2 request data (snd first) Hd) as (n2 & X2).
  rewrite X2 in E2. rewrite E2, E1. simpl.
  do 2 (split; [done |]). split; [by destruct (handler w) |]. split; [done |]. split.
  - intros -> ->. unfold durable_agrees. by simpl.
  - intros id w0 H409.
    unfold createDeviceSubscription, try_catch, bind, this, emit, throw, ret. simpl.
    by rewrite H409.
Qed.

Lemma install_twice_is_idempotent_witness :
  let request := Sample.install "app-1" "token-1" "refresh-1" "loc-1" in
  let w := Sample.world (with_deviceIds ["d1"; "d2"] initial_handler) in
  fst (handleRequest Sample.conflicting request
         (snd (handleRequest Sample.friendly request w)))
  = Returned (mkResponse 200 InstallDataOut)
  /\ fst (createDeviceSubscription Sample.conflicting "d1" w) = Returned tt.
Proof.
  intros request w.
  pose proof (install_twice_is_idempotent Sample.friendly Sample.conflicting request
                (InstallData.mk "token-1" "refresh-1" (InstalledApp.mk "app-1" "loc-1"))
                w eq_refl eq_refl) as H.
  split.
  - exact (proj1 (proj2 H)).
  - apply (proj2 (proj2 (proj2 (proj2 (proj2 H))))). reflexivity.
Defined.

(** The second INSTALL against a platform that answers every create with
    409: two creates are attempted, none surfaces. *)
Example install_twice_run :
  let request := Sample.install "app-1" "token-1" "refresh-1" "loc-1" in
  let w1 := snd (handleRequest Sample.friendly request
                   (Sample.world (with_deviceIds ["d1"; "d2"] initial_handler))) in
  let second := handleRequest Sample.conflicting request w1 in
  fst second = Returned (mkResponse 200 InstallDataOut)
  /\ create_calls (issued w1 (snd second)) = ["d1"; "d2"]
  /\ handler (snd second) = handler w1.
Proof. vm_compute. done. Qed.

#[local] Hint Resolve safe_createDeviceSubscription benign_create_each
  benign_getExistingSubscriptions benign_createDeviceLifecycleSubscription
  benign_deleteAllSubscriptions benign_createDeviceSubscriptions
  benign_syncDeviceSubscriptions benign_syncPendingSubscriptions
  benign_notifyEventHandlers benign_notifyDeviceLifecycleHandlers
  benign_process_event benign_handleConfirmation : handler_db.

Section LifecycleEffects.

Variable env : Env.

(** The credentials [handleEvent] adopts from a payload that carries a
    non-empty token and an installed app; the refresh token is kept. *)
Lemma handleEvent_effect request eventData w :
  SmartAppRequest.eventData request = Some eventData ->
  exists h1,
    (h1 = handler w
     \/ exists app token,
          EventData.authToken eventData = Some token
          /\ EventData.installedApp eventData = Some app
          /\ h1 = with_credentials (Some (InstalledApp.installedAppId app))
                    (Some token) (refreshToken (handler w))
                    (Some (InstalledApp.locationId app)) (handler w))
    /\ exists w',
         handleEvent env request w = (Returned (mkResponse 200 EventDataOut), w')
         /\ extends (mkWorld h1 (disk w) (trace w)) w'.
Proof.
  intros Hd. unfold handleEvent. rewrite Hd. unfold bind at 1, this at 1.
  assert (Htail : forall (pre : M unit) w1,
    benign pre ->
    exists w',
      bind pre (fun _ =>
        bind (for_each (EventData.events eventData) (process_event env))
             (fun _ => ret (mkResponse 200 EventDataOut))) w1
      = (Returned (mkResponse 200 EventDataOut), w')
      /\ extends w1 w').
  { intros pre w1 Hpre.
    destruct (Hpre w1) as ([] & w2 & E2 & X2).
    assert (Hloop : benign (for_each (EventData.events eventData) (process_event env)))
      by walk.
    destruct (Hloop w2) as ([] & w3 & E3 & X3).
    exists w3. unfold bind. rewrite E2, E3. eauto using extends_trans. }
  destruct (EventData.authToken eventData) as [token |] eqn:Ht; simpl;
    [destruct (truthy_string token) |];
    [destruct (EventData.installedApp eventData) as [app |] eqn:Ha | |].
  - eexists. split; [right; eauto |].
    match goal with
    | |- context [bind (bind (update ?f) ?k1) ?k2 w] =>
        change (bind (bind (update f) k1) k2 w)
          with (bind (k1 tt) k2 (mkWorld (f (handler w)) (disk w) (trace w)))
    end.
    apply Htail. walk.
  - exists (handler w). split; [by left |]. rewrite world_eta. apply Htail. walk.
  - exists (handler w). split; [by left |]. rewrite world_eta. apply Htail. walk.
  - exists (handler w). split; [by left |]. rewrite world_eta. apply Htail. walk.
Qed.

Lemma handleUninstall_exact request w :
  handleUninstall env request w
  = (Returned (mkResponse 200 UninstallDataOut),
     mkWorld (with_credentials None None None None (handler w))
       (match disk w with
        | Some f => if disk_writable env then None else Some f
        | None => None
        end)
       (trace w)).
Proof.
  unfold handleUninstall, clearCredentials, bind, update, read_disk, write_disk, ret.
  simpl. destruct (disk w) as [f |]; [| done]. by destruct (disk_writable env).
Qed.

(** One handled message keeps the two fields paired. *)
Lemma handleRequest_paired request w :
  paired (handler w) -> paired (handler (snd (handleRequest env request w))).
Proof.
  intros Hp. unfold handleRequest.
  repeat match goal with
  | |- context [if String.eqb ?a ?b then _ else _] => destruct (String.eqb a b)
  end; try exact Hp.
  - destruct (benign_handleConfirmation env request w) as (r & w' & E & X).
    rewrite E. simpl. destruct (extends_credentials _ _ X) as (Ha & Ht & _).
    unfold paired. by rewrite Ha, Ht.
  - destruct (SmartAppRequest.installData request) as [data |] eqn:Hd.
    + destruct (handleInstall_exact env request data w Hd) as (new & E).
      rewrite E. by unfold paired.
    + unfold handleInstall. by rewrite Hd.
  - destruct (SmartAppRequest.updateData request) as [data |] eqn:Hd.
    + destruct (handleUpdate_exact env request data w Hd) as (new & E).
      rewrite E. by unfold paired.
    + unfold handleUpdate. by rewrite Hd.
  - destruct (SmartAppRequest.eventData request) as [ed |] eqn:Hd.
    + destruct (handleEvent_effect request ed w Hd) as (h1 & Hh1 & w' & E & X).
      rewrite E. simpl. destruct (extends_credentials _ _ X) as (Ha & Ht & _).
      simpl in Ha, Ht. unfold paired. rewrite Ha, Ht.
      destruct Hh1 as [-> | (app & token & _ & _ & ->)]; [exact Hp | done].
    + unfold handleEvent. by rewrite Hd.
  - rewrite handleUninstall_exact. by unfold paired.
Qed.

End LifecycleEffects.

Lemma handle_all_paired msgs w :
  paired (handler w) -> paired (handler (handle_all msgs w)).
Proof.
  revert w. induction msgs as [| [env request] msgs IH]; intros w Hp; simpl.
  - exact Hp.
  - apply IH. by apply handleRequest_paired.
Qed.

(** C4, as the code has it.  Handled lifecycle messages keep [authToken] and
    [installedAppId] paired: from any state in which both are set or both
    absent, every sequence of messages leads to such a state.  Construction
    takes each field of the record on its own, so it yields a paired state
    when there is no record, when the record cannot be read, or when the two
    fields of the record are both non-empty or both empty or missing.  In any
    state, absence of either field makes [isInstalled] false. *)
Theorem credentials_stay_paired :
  (forall msgs w, paired (handler w) -> paired (handler (handle_all msgs w)))
  /\ (forall d msgs,
        match d with
        | Some (Parsed data) =>
            truthy (SavedCredentials.installedAppId data)
            = truthy (SavedCredentials.authToken data)
        | _ => True
        end ->
        paired (handler (handle_all msgs (construct d))))
  /\ (forall h, installedAppId h = None \/ authToken h = None -> isInstalled h = false).
Proof.
  split; [exact handle_all_paired | split].
  - intros d msgs Hd. apply handle_all_paired.
    destruct d as [[data |] |]; try (by unfold paired).
    unfold construct, loadCredentials, paired, or_null. simpl. rewrite Hd.
    destruct (truthy (SavedCredentials.authToken data)) eqn:Et.
    + destruct (SavedCredentials.installedAppId data), (SavedCredentials.authToken data);
        try discriminate; done.
    + done.
  - intros h [H | H]; unfold isInstalled; rewrite H; [done |].
    by destruct (installedAppId h).
Qed.

Lemma credentials_stay_paired_witness :
  paired (handler (handle_all
                     [(Sample.friendly, Sample.eventMessage);
                      (Sample.friendly, Sample.request "UNINSTALL")]
                     (Sample.world (Sample.installed ["d1"]))))
  /\ paired (handler (handle_all
                        [(Sample.friendly, Sample.eventMessage)]
                        (construct (Some (Parsed (SavedCredentials.mk
                                                    (Some "app-1") (Some "token-1")
                                                    None None 0))))))
  /\ isInstalled initial_handler = false.
Proof.
  split; [| split].
  - apply (proj1 credentials_stay_paired). simpl. unfold paired. simpl.
    split; discriminate.
  - apply (proj1 (proj2 credentials_stay_paired)). reflexivity.
  - apply (proj2 (proj2 credentials_stay_paired)). left. reflexivity.
Defined.

(** C4 as stated fails at construction.  A record holding a token and no
    installed-app id is loaded as it is; and such a record is written by the
    handler itself when an INSTALL carries an empty installed-app id, so that
    after a restart the token is set and the id is absent. *)
Lemma credentials_split_by_construction :
  ~ paired (handler (construct (Some (Parsed (SavedCredentials.mk
                                                None (Some "token-1") None None 0)))))
  /\ paired (handler (construct None))
  /\ authToken (handler (restart (handle_all
        [(Sample.friendly, Sample.install "" "token-1" "refresh-1" "loc-1")]
        (construct None)))) = Some "token-1"
  /\ installedAppId (handler (restart (handle_all
        [(Sample.friendly, Sample.install "" "token-1" "refresh-1" "loc-1")]
        (construct None)))) = None.
Proof.
  split; [| by vm_compute].
  vm_compute. intros [H _]. discriminate (H eq_refl).
Qed.

(** C3, as the code has it.  With a writable disk, after an INSTALL or an
    UPDATE that carries its payload the credentials file holds the four
    credential fields of the handler, and after an UNINSTALL both the fields
    and the file are gone.  An EVENT never touches the file. *)
Theorem credentials_persisted (env : Env) (request : SmartAppRequest.t) (w : World) :
  let w' := snd (handleRequest env request w) in
  (disk_writable env = true ->
   SmartAppRequest.lifecycle request = "INSTALL" ->
   is_Some (SmartAppRequest.installData request) -> durable_agrees w')
  /\ (disk_writable env = true ->
      SmartAppRequest.lifecycle request = "UPDATE" ->
      is_Some (SmartAppRequest.updateData request) -> durable_agrees w')
  /\ (disk_writable env = true ->
      SmartAppRequest.lifecycle request = "UNINSTALL" ->
      durable_agrees w' /\ disk w' = None)
  /\ (SmartAppRequest.lifecycle request = "EVENT" -> disk w' = disk w).
Proof.
  intros w'. subst w'. unfold handleRequest. split; [| split; [| split]].
  - intros Hw -> [data Hd]. simpl.
    destruct (handleInstall_exact env request data w Hd) as (new & E).
    rewrite E, Hw. by unfold durable_agrees.
  - intros Hw -> [data Hd]. simpl.
    destruct (handleUpdate_exact env request data w Hd) as (new & E).
    rewrite E, Hw. by unfold durable_agrees.
  - intros Hw ->. simpl. rewrite handleUninstall_exact, Hw. unfold durable_agrees. simpl.
    by destruct (disk w).
  - intros ->. simpl.
    destruct (SmartAppRequest.eventData request) as [ed |] eqn:Hd.
    + destruct (handleEvent_effect env request ed w Hd) as (h1 & _ & w' & E & X).
      rewrite E. simpl. by destruct (extends_credentials _ _ X) as (_ & _ & _ & _ & ->).
    + unfold handleEvent. by rewrite Hd.
Qed.

Lemma credentials_persisted_witness :
  durable_agrees (snd (handleRequest Sample.friendly
                         (Sample.install "app-1" "token-1" "refresh-1" "loc-1")
                         (construct None)))
  /\ durable_agrees (snd (handleRequest Sample.friendly
                            (Sample.update "app-1" "token-3" "refresh-3" "loc-1")
                            (Sample.world (Sample.installed ["d1"]))))
  /\ durable_agrees (snd (handleRequest Sample.friendly (Sample.request "UNINSTALL")
                            (Sample.world (Sample.installed ["d1"]))))
  /\ disk (snd (handleRequest Sample.friendly Sample.eventMessage (construct None))) = None.
Proof.
  split; [| split; [| split]].
  - refine (proj1 (credentials_persisted Sample.friendly
                     (Sample.install "app-1" "token-1" "refresh-1" "loc-1")
                     (construct None)) _ _ _).
    + reflexivity.
    + reflexivity.
    + simpl. eexists. reflexivity.
  - refine (proj1 (proj2 (credentials_persisted Sample.friendly
                            (Sample.update "app-1" "token-3" "refresh-3" "loc-1")
                            (Sample.world (Sample.installed ["d1"])))) _ _ _).
    + reflexivity.
    + reflexivity.
    + simpl. eexists. reflexivity.
  - refine (proj1 (proj1 (proj2 (proj2 (credentials_persisted Sample.friendly
                                          (Sample.request "UNINSTALL")
                                          (Sample.world (Sample.installed ["d1"])))))
                         _ _)).
    + reflexivity.
    + reflexivity.
  - refine (proj2 (proj2 (proj2 (credentials_persisted Sample.friendly Sample.eventMessage
                                   (construct None)))) _).
    reflexivity.
Defined.

(** C3 as stated fails for EVENT.  A handler constructed without a record
    that receives credentials in an EVENT is installed in memory, but no file
    is written: the durable record disagrees with the handler, and a restart
    comes up without credentials. *)
Lemma event_credentials_are_not_persisted :
  let w0 := construct None in
  let w1 := snd (handleRequest Sample.friendly Sample.eventMessage w0) in
  isInstalled (handler w0) = false
  /\ isInstalled (handler w1) = true
  /\ authToken (handler w1) = Some "token-2"
  /\ disk w1 = None
  /\ ~ durable_agrees w1
  /\ isInstalled (handler (restart w1)) = false.
Proof.
  vm_compute. repeat split; try done. intros (H & _). discriminate H.
Qed.

(** ** Crash-loop manager *)

Section CrashLog.

Import CrashLoopManager.

Lemma newest_short n (l : list CrashEvent) : (length l <= n)%nat -> newest n l = l.
Proof.
  intros H. unfold newest. replace (length l - n)%nat with 0%nat by lia. done.
Qed.

Lemma newest_length n (l : list CrashEvent) : (length (newest n l) <= n)%nat.
Proof. unfold newest. rewrite length_drop. lia. Qed.

Lemma newest_app n (a b : list CrashEvent) :
  newest n (newest n a ++ b) = newest n (a ++ b).
Proof.
  destruct (decide (length a <= n)%nat) as [Hs | Hl].
  - by rewrite (newest_short n a).
  - unfold newest. rewrite !length_app, length_drop.
    replace (length a - (length a - n) + length b - n)%nat with (length b) by lia.
    replace (length a + length b - n)%nat with ((length a - n) + length b)%nat by lia.
    rewrite <- drop_drop. f_equal. rewrite drop_app_le by lia. done.
Qed.

(** What [writeCrashLog] stores is the newest twenty of what it is given. *)
Lemma pruned_is_newest (l : list CrashEvent) :
  (if Nat.ltb MAX_LOG_ENTRIES (length l)
   then slice (length l - MAX_LOG_ENTRIES) l else l)
  = newest MAX_LOG_ENTRIES l.
Proof.
  destruct (Nat.ltb_spec MAX_LOG_ENTRIES (length l)) as [H | H].
  - reflexivity.
  - symmetry. by apply newest_short.
Qed.

Lemma record_healthy io kind f :
  read_ok io = true -> write_ok io = true ->
  stored (recordPotentialCrash io kind f)
  = newest MAX_LOG_ENTRIES (stored f ++ [mkCrash (date_now io) kind]).
Proof.
  intros Hr Hw. unfold recordPotentialCrash, writeCrashLog. rewrite Hw.
  rewrite pruned_is_newest. unfold stored, readCrashLog at 1. simpl.
  unfold readCrashLog. by rewrite Hr.
Qed.

Lemma record_bounded io kind f :
  (length (stored f) <= MAX_LOG_ENTRIES)%nat ->
  (length (stored (recordPotentialCrash io kind f)) <= MAX_LOG_ENTRIES)%nat.
Proof.
  intros Hb. unfold recordPotentialCrash, writeCrashLog.
  destruct (write_ok io); [| exact Hb].
  rewrite pruned_is_newest. unfold stored, readCrashLog at 1. simpl.
  apply newest_length.
Qed.

Lemma record_all_bounded calls f :
  (length (stored f) <= MAX_LOG_ENTRIES)%nat ->
  (length (stored (record_all calls f)) <= MAX_LOG_ENTRIES)%nat.
Proof.
  revert f. induction calls as [| [io kind] calls IH]; intros f Hb; simpl.
  - exact Hb.
  - apply IH. by apply record_bounded.
Qed.

Lemma record_all_healthy calls f :
  Forall healthy calls ->
  (length (stored f) <= MAX_LOG_ENTRIES)%nat ->
  stored (record_all calls f) = newest MAX_LOG_ENTRIES (stored f ++ recorded calls).
Proof.
  intros Hh. revert f. induction Hh as [| [io kind] calls [Hr Hw] _ IH]; intros f Hb.
  - simpl. rewrite app_nil_r. symmetry. by apply newest_short.
  - simpl in *. rewrite IH by (by apply record_bounded).
    rewrite record_healthy by done. rewrite newest_app.
    by rewrite <- app_assoc.
Qed.

End CrashLog.

(** C7. From a log of at most twenty entries (no file in particular), after
    any run of [recordPotentialCrash] calls, with any error kinds and any
    storage failures, the log holds at most twenty entries; and when storage
    works, the log is the last twenty of the old entries followed by the new
    ones: what is dropped is dropped from the front. *)
Theorem crash_log_is_capped
    (calls : list (CrashLoopManager.Io * string)) (f : CrashLoopManager.CrashLogFile) :
  (length (CrashLoopManager.stored f) <= 20)%nat ->
  (length (CrashLoopManager.stored (CrashLoopManager.record_all calls f)) <= 20)%nat
  /\ (Forall CrashLoopManager.healthy calls ->
      CrashLoopManager.stored (CrashLoopManager.record_all calls f)
      = CrashLoopManager.newest 20
          (CrashLoopManager.stored f ++ CrashLoopManager.recorded calls)).
Proof.
  intros Hb. split.
  - by apply record_all_bounded.
  - intros Hh. by apply record_all_healthy.
Qed.

Lemma crash_log_is_capped_witness :
  let calls := repeat (CrashLoopManager.at_noon, "API_INIT_FAILURE") 25 in
  (length (CrashLoopManager.stored
             (CrashLoopManager.record_all calls CrashLoopManager.Absent)) <= 20)%nat
  /\ CrashLoopManager.stored (CrashLoopManager.record_all calls CrashLoopManager.Absent)
     = CrashLoopManager.newest 20 (CrashLoopManager.recorded calls).
Proof.
  intros calls.
  assert (Hfresh : (length (CrashLoopManager.stored CrashLoopManager.Absent) <= 20)%nat)
    by (simpl; lia).
  split.
  - exact (proj1 (crash_log_is_capped calls CrashLoopManager.Absent Hfresh)).
  - refine (proj2 (crash_log_is_capped calls CrashLoopManager.Absent Hfresh) _).
    subst calls. simpl. repeat constructor.
Defined.

(** Twenty-two records on a fresh log: entries 3 to 22 remain. *)
Example crash_log_run :
  let calls := map (fun n => (CrashLoopManager.mkIo true true n, "UNKNOWN_API_FAILURE"))
                   (map Z.of_nat (seq 1 22)) in
  map CrashLoopManager.timestamp
      (CrashLoopManager.stored (CrashLoopManager.record_all calls CrashLoopManager.Absent))
  = map Z.of_nat (seq 3 20).
Proof. vm_compute. reflexivity. Qed.

Section CrashLoop.

Import CrashLoopManager.

Lemma includes_elem_of types kind : includes types kind = true <-> kind ∈ types.
Proof.
  unfold includes. rewrite existsb_exists. split.
  - intros (x & Hin & He). apply String.eqb_eq in He. subst x.
    by apply list_elem_of_In.
  - intros Hin. exists kind. split; [by apply list_elem_of_In | apply String.eqb_refl].
Qed.

(** The test of the filter in [isCrashLoopDetected] is the counting rule. *)
Lemma recentRelevant_spec config now crash :
  recentRelevant config now crash = true
  <-> within_window config now crash /\ relevant config crash.
Proof.
  unfold recentRelevant, within_window, relevant.
  rewrite andb_true_iff, orb_true_iff, Z.leb_le, includes_elem_of, Nat.eqb_eq.
  split; intros [Hw Hr]; (split; [exact Hw |]).
  - destruct Hr as [H0 | Hin]; [left | by right].
    by destruct (relevantErrorTypes config).
  - destruct Hr as [-> | Hin]; [by left | by right].
Qed.

Lemma filter_recentRelevant config now log :
  List.filter (recentRelevant config now) log = qualifying config now log.
Proof.
  unfold qualifying. induction log as [| c log IH]; [done |].
  simpl. rewrite filter_cons, IH.
  destruct (recentRelevant config now c) eqn:E.
  - apply recentRelevant_spec in E. by rewrite decide_True.
  - rewrite decide_False; [done |]. intros H. apply recentRelevant_spec in H. congruence.
Qed.

End CrashLoop.

(** C2, as the code has it.  [isCrashLoopDetected] answers true exactly when
    the log it reads is not empty and the number of entries that are no older
    than the window and of a relevant kind (any kind when none is named) is
    at least [maxCrashes]; for a positive [maxCrashes] the first condition
    follows from the second.  With the default configuration (5 crashes, 15
    minutes), five API_INIT_FAILURE entries 0, 1, 2, 3 and 14 minutes old are
    a loop, and with the last one 16 minutes old they are not. *)
Theorem crash_loop_detected_iff :
  (forall io config f,
     CrashLoopManager.isCrashLoopDetected io config f = true
     <-> CrashLoopManager.readCrashLog io f <> []
         /\ CrashLoopManager.maxCrashes config
            <= Z.of_nat (length (CrashLoopManager.qualifying config
                                   (CrashLoopManager.date_now io)
                                   (CrashLoopManager.readCrashLog io f))))
  /\ (forall io config f,
        0 < CrashLoopManager.maxCrashes config ->
        (CrashLoopManager.isCrashLoopDetected io config f = true
         <-> CrashLoopManager.maxCrashes config
             <= Z.of_nat (length (CrashLoopManager.qualifying config
                                    (CrashLoopManager.date_now io)
                                    (CrashLoopManager.readCrashLog io f)))))
  /\ CrashLoopManager.isCrashLoopDetected CrashLoopManager.at_noon
       CrashLoopManager.defaultCrashLoopConfig
       (CrashLoopManager.minutes_ago 1700000000000 [14; 3; 2; 1; 0]) = true
  /\ CrashLoopManager.isCrashLoopDetected CrashLoopManager.at_noon
       CrashLoopManager.defaultCrashLoopConfig
       (CrashLoopManager.minutes_ago 1700000000000 [16; 3; 2; 1; 0]) = false.
Proof.
  assert (H1 : forall io config f,
     CrashLoopManager.isCrashLoopDetected io config f = true
     <-> CrashLoopManager.readCrashLog io f <> []
         /\ CrashLoopManager.maxCrashes config
            <= Z.of_nat (length (CrashLoopManager.qualifying config
                                   (CrashLoopManager.date_now io)
                                   (CrashLoopManager.readCrashLog io f)))).
  { intros io config f. unfold CrashLoopManager.isCrashLoopDetected.
    rewrite filter_recentRelevant.
    destruct (CrashLoopManager.readCrashLog io f) as [| c log] eqn:E; simpl.
    - split; [discriminate | by intros [H _]].
    - rewrite Z.geb_le. split; [by intros H | by intros [_ H]]. }
  split; [exact H1 | split; [| split; reflexivity]].
  intros io config f Hpos. rewrite H1. split; [by intros [_ H] |].
  intros H. split; [| exact H].
  intros E. rewrite E in H. simpl in H. lia.
Qed.

Lemma crash_loop_detected_iff_witness :
  CrashLoopManager.isCrashLoopDetected CrashLoopManager.at_noon
    CrashLoopManager.defaultCrashLoopConfig
    (CrashLoopManager.minutes_ago 1700000000000 [14; 3; 2; 1; 0]) = true.
Proof.
  apply (proj2 (proj1 (proj2 crash_loop_detected_iff) CrashLoopManager.at_noon
                  CrashLoopManager.defaultCrashLoopConfig
                  (CrashLoopManager.minutes_ago 1700000000000 [14; 3; 2; 1; 0])
                  ltac:(simpl; lia))).
  vm_compute. discriminate.
Defined.

(** C2 as stated fails on an empty log when [maxCrashes] is not positive:
    no entry qualifies, zero is at least [maxCrashes = 0], and the answer is
    false. *)
Lemma crash_loop_empty_log :
  CrashLoopManager.isCrashLoopDetected CrashLoopManager.at_noon
    (CrashLoopManager.mkConfig 0 15 []) CrashLoopManager.Absent = false
  /\ CrashLoopManager.maxCrashes (CrashLoopManager.mkConfig 0 15 [])
     <= Z.of_nat (length (CrashLoopManager.qualifying
                            (CrashLoopManager.mkConfig 0 15 [])
                            (CrashLoopManager.date_now CrashLoopManager.at_noon)
                            (CrashLoopManager.readCrashLog CrashLoopManager.at_noon
                               CrashLoopManager.Absent))).
Proof. split; [reflexivity | simpl; lia]. Qed.

(** * Further properties of the code *)

(** ** What a lifecycle message can cause *)

Lemma confined_ret {A} P (a : A) : confined P (ret a).
Proof. intros w. exists (Returned a), w, []. by rewrite app_nil_r. Qed.

Lemma confined_throw {A} P e : confined P (@throw A e).
Proof. intros w. exists (Thrown e), w, []. by rewrite app_nil_r. Qed.

Lemma confined_this P : confined P this.
Proof. intros w. exists (Returned (handler w)), w, []. by rewrite app_nil_r. Qed.

Lemma confined_read_disk P : confined P read_disk.
Proof. intros w. exists (Returned (disk w)), w, []. by rewrite app_nil_r. Qed.

Lemma confined_update P f : confined P (update f).
Proof. intros w. eexists _, _, []. split; [reflexivity |]. simpl. by rewrite app_nil_r. Qed.

Lemma confined_write_disk P d : confined P (write_disk d).
Proof. intros w. eexists _, _, []. split; [reflexivity |]. simpl. by rewrite app_nil_r. Qed.

Lemma confined_emit (P : Effect -> Prop) e : P e -> confined P (emit e).
Proof.
  intros He w. eexists _, _, [e]. split; [reflexivity |]. simpl. split; [done |].
  by repeat constructor.
Qed.

Lemma confined_bind {A B} P (m : M A) (k : A -> M B) :
  confined P m -> (forall a, confined P (k a)) -> confined P (bind m k).
Proof.
  intros Hm Hk w. destruct (Hm w) as (o & w1 & n1 & E1 & T1 & F1).
  unfold bind. rewrite E1. destruct o as [a | e]; [| by eauto 6].
  destruct (Hk a w1) as (o2 & w2 & n2 & E2 & T2 & F2).
  exists o2, w2, (n1 ++ n2). rewrite E2, T2, T1, app_assoc.
  split; [done |]. split; [done |]. by apply Forall_app.
Qed.

Lemma confined_try_catch {A} P (m : M A) (h : Error -> M A) :
  confined P m -> (forall e, confined P (h e)) -> confined P (try_catch m h).
Proof.
  intros Hm Hh w. destruct (Hm w) as (o & w1 & n1 & E1 & T1 & F1).
  unfold try_catch. rewrite E1. destruct o as [a | e]; [by eauto 6 |].
  destruct (Hh e w1) as (o2 & w2 & n2 & E2 & T2 & F2).
  exists o2, w2, (n1 ++ n2). rewrite E2, T2, T1, app_assoc.
  split; [done |]. split; [done |]. by apply Forall_app.
Qed.

Lemma confined_for_each {A} P (l : list A) (body : A -> M unit) :
  (forall x, confined P (body x)) -> confined P (for_each l body).
Proof.
  intros Hb. induction l as [| x l IH]; simpl.
  - apply confined_ret.
  - apply confined_bind; [apply Hb | intros _; apply IH].
Qed.

Lemma confined_issued {A} P (m : M A) w :
  confined P m -> Forall P (issued w (snd (m w))).
Proof.
  intros H. destruct (H w) as (o & w' & new & E & T & F).
  rewrite E. unfold issued. simpl. by rewrite T, drop_app_length.
Qed.

Create HintDb confined_db.
#[local] Hint Resolve confined_ret confined_throw confined_this confined_read_disk
  confined_update confined_write_disk confined_emit : confined_db.

(** Follow a handler body and leave one goal per effect it performs. *)
Ltac track :=
  repeat first
    [ progress eauto with confined_db
    | apply confined_bind; [| intros ?]
    | apply confined_try_catch; [| intros ?]
    | apply confined_for_each; intros ?
    | match goal with
      | |- confined _ (if ?c then _ else _) => destruct c
      | |- confined _ (match ?x with _ => _ end) => destruct x
      end ].

Section Confinement.

Variable env : Env.
Variable P : Effect -> Prop.

Lemma confined_createDeviceSubscription id :
  (forall a t, P (PostDeviceSubscription a t id)) ->
  confined P (createDeviceSubscription env id).
Proof. intros H. unfold createDeviceSubscription. track. Qed.

Lemma confined_create_each ids :
  (forall a t id, P (PostDeviceSubscription a t id)) ->
  confined P (create_each env ids).
Proof.
  intros H. unfold create_each. apply confined_for_each. intros id.
  apply confined_try_catch; [by apply confined_createDeviceSubscription |].
  intros _. apply confined_ret.
Qed.

Lemma confined_createDeviceSubscriptions :
  (forall a t id, P (PostDeviceSubscription a t id)) ->
  confined P (createDeviceSubscriptions env).
Proof.
  intros H. unfold createDeviceSubscriptions.
  apply confined_bind; [apply confined_this | intros h].
  destruct (missing_credentials h); [apply confined_ret |].
  destruct (Nat.eqb _ 0); [apply confined_ret | by apply confined_create_each].
Qed.

Lemma confined_createDeviceLifecycleSubscription :
  (forall a t l, P (PostLifecycleSubscription a t l)) ->
  confined P (createDeviceLifecycleSubscription env).
Proof. intros H. unfold createDeviceLifecycleSubscription. track. Qed.

Lemma confined_deleteAllSubscriptions :
  (forall a t, P (DeleteSubscriptions a t)) ->
  confined P (deleteAllSubscriptions env).
Proof. intros H. unfold deleteAllSubscriptions. track. Qed.

Lemma confined_getExistingSubscriptions :
  (forall a t, P (GetSubscriptions a t)) ->
  confined P (getExistingSubscriptions env).
Proof. intros H. unfold getExistingSubscriptions. track. Qed.

Lemma confined_syncDeviceSubscriptions :
  (forall a t, P (GetSubscriptions a t)) ->
  (forall a t id, P (PostDeviceSubscription a t id)) ->
  confined P (syncDeviceSubscriptions env).
Proof.
  intros HG HP. unfold syncDeviceSubscriptions.
  apply confined_bind; [apply confined_this | intros h].
  destruct (missing_credentials h); [apply confined_ret |].
  destruct (Nat.eqb _ 0); [apply confined_ret |].
  apply confined_bind; [by apply confined_getExistingSubscriptions | intros R].
  apply confined_bind; [apply confined_this | intros h'].
  destruct (Nat.eqb _ 0); [apply confined_ret | by apply confined_create_each].
Qed.

Lemma confined_syncPendingSubscriptions :
  (forall a t, P (GetSubscriptions a t)) ->
  (forall a t id, P (PostDeviceSubscription a t id)) ->
  (forall a t l, P (PostLifecycleSubscription a t l)) ->
  confined P (syncPendingSubscriptions env).
Proof.
  intros HG HP HL. unfold syncPendingSubscriptions.
  apply confined_bind; [apply confined_this | intros h].
  destruct (_ || _); [apply confined_ret |].
  apply confined_bind; [by apply confined_syncDeviceSubscriptions | intros _].
  by apply confined_createDeviceLifecycleSubscription.
Qed.

Lemma confined_process_event event :
  (forall a t id, P (PostDeviceSubscription a t id)) ->
  (forall k ev, P (EventHandlerCalled k ev)) ->
  (forall k lc id name, P (LifecycleHandlerCalled k lc id name)) ->
  confined P (process_event env event).
Proof.
  intros HP HE HL.
  assert (HN : forall ev, confined P (notifyEventHandlers ev)).
  { intros ev. unfold notifyEventHandlers. track. }
  assert (HM : forall lc id name, confined P (notifyDeviceLifecycleHandlers lc id name)).
  { intros lc id name. unfold notifyDeviceLifecycleHandlers. track. }
  assert (HC : forall id, confined P (createDeviceSubscription env id))
    by (intros id; by apply confined_createDeviceSubscription).
  unfold process_event.
  repeat match goal with
  | |- confined _ (match ?x with _ => _ end) => destruct x
  | |- confined _ (if ?c then _ else _) => destruct c
  | |- confined _ (bind _ _) => apply confined_bind; [| intros ?]
  | |- confined _ (try_catch _ _) => apply confined_try_catch; [| intros ?]
  end; auto using confined_ret, confined_update.
Qed.

End Confinement.

Lemma confined_handleRequest (env : Env) (request : SmartAppRequest.t) :
  confined (fun e => allowed_effect (SmartAppRequest.lifecycle request) e = true)
           (handleRequest env request).
Proof.
  unfold handleRequest.
  destruct (String.eqb_spec (SmartAppRequest.lifecycle request) "PING");
    [apply confined_ret |].
  destruct (String.eqb_spec (SmartAppRequest.lifecycle request) "CONFIRMATION") as [E |].
  { rewrite E. unfold handleConfirmation.
    destruct (SmartAppRequest.confirmationData request) as [c |]; [| apply confined_ret].
    destruct (truthy_string _); [| apply confined_ret].
    apply confined_try_catch; [| intros _; apply confined_ret].
    apply confined_bind; [by apply confined_emit | intros t].
    destruct (get_reply env t); [apply confined_ret | apply confined_throw]. }
  destruct (String.eqb_spec (SmartAppRequest.lifecycle request) "CONFIGURATION");
    [apply confined_ret |].
  destruct (String.eqb_spec (SmartAppRequest.lifecycle request) "INSTALL") as [E |].
  { rewrite E. unfold handleInstall.
    destruct (SmartAppRequest.installData request) as [data |]; [| apply confined_ret].
    unfold store_credentials, saveCredentials.
    repeat (apply confined_bind; [| intros ?]);
      try (by apply confined_createDeviceSubscriptions);
      try (by apply confined_createDeviceLifecycleSubscription);
      track. }
  destruct (String.eqb_spec (SmartAppRequest.lifecycle request) "UPDATE") as [E |].
  { rewrite E. unfold handleUpdate.
    destruct (SmartAppRequest.updateData request) as [data |]; [| apply confined_ret].
    unfold store_credentials, saveCredentials.
    repeat (apply confined_bind; [| intros ?]);
      try (by apply confined_deleteAllSubscriptions);
      try (by apply confined_createDeviceSubscriptions);
      try (by apply confined_createDeviceLifecycleSubscription);
      track. }
  destruct (String.eqb_spec (SmartAppRequest.lifecycle request) "EVENT") as [E |].
  { rewrite E. unfold handleEvent.
    destruct (SmartAppRequest.eventData request) as [ed |]; [| apply confined_ret].
    apply confined_bind; [apply confined_this | intros h].
    apply confined_bind.
    - destruct (truthy _); [| apply confined_ret].
      destruct (EventData.installedApp ed); [| apply confined_ret].
      apply confined_bind; [apply confined_update | intros _].
      destruct (_ && _); [| apply confined_ret].
      by apply confined_syncPendingSubscriptions.
    - intros _. apply confined_bind; [| intros _; apply confined_ret].
      apply confined_for_each. intros ev. by apply confined_process_event. }
  destruct (String.eqb_spec (SmartAppRequest.lifecycle request) "UNINSTALL") as [E |].
  { unfold handleUninstall, clearCredentials. track. }
  apply confined_ret.
Qed.

(** X1. The outbound calls and callbacks a lifecycle message causes are
    limited by its kind: a CONFIRMATION only fetches the confirmation URL;
    INSTALL only creates subscriptions; UPDATE alone deletes; only an EVENT
    lists subscriptions or invokes consumers; PING, CONFIGURATION, UNINSTALL
    and unknown kinds cause nothing at all. *)
Theorem lifecycle_effects_are_limited
    (env : Env) (request : SmartAppRequest.t) (w : World) :
  Forall (fun e => allowed_effect (SmartAppRequest.lifecycle request) e = true)
         (issued w (snd (handleRequest env request w))).
Proof. apply confined_issued, confined_handleRequest. Qed.

(** The run of an UPDATE on an installed handler with two devices: the delete
    comes first, then the creates, then the lifecycle subscription. *)
Example update_run :
  outbound_calls
    (trace (snd (handleRequest Sample.friendly
                   (Sample.update "app-1" "token-3" "refresh-3" "loc-1")
                   (Sample.world (Sample.installed ["d1"; "d2"])))))
  = [DeleteSubscriptions (Some "app-1") (Some "token-3");
     PostDeviceSubscription (Some "app-1") (Some "token-3") "d1";
     PostDeviceSubscription (Some "app-1") (Some "token-3") "d2";
     PostLifecycleSubscription (Some "app-1") (Some "token-3") (Some "loc-1")].
Proof. vm_compute. reflexivity. Qed.

(** ** Answers of the lifecycle handler *)

Section Answers.

Variable env : Env.

(** CONFIRMATION, step by step: without a URL nothing happens; with one the
    URL is fetched once and the answer follows the fetch. *)
Lemma handleConfirmation_exact request w :
  handleConfirmation env request w
  = match SmartAppRequest.confirmationData request with
    | Some c =>
        if truthy_string (ConfirmationData.confirmationUrl c) then
          let t := trace w ++ [GetConfirmationUrl (ConfirmationData.confirmationUrl c)] in
          (Returned (mkResponse (match get_reply env t with
                                 | Resolved => 200
                                 | Rejected _ => 500
                                 end) NoData),
           mkWorld (handler w) (disk w) t)
        else (Returned (mkResponse 400 NoData), w)
    | None => (Returned (mkResponse 400 NoData), w)
    end.
Proof.
  unfold handleConfirmation.
  destruct (SmartAppRequest.confirmationData request) as [c |]; [| done].
  destruct (truthy_string _); [| done].
  unfold try_catch, bind, emit, ret, throw. simpl.
  by destruct (get_reply env _).
Qed.

(** Every message gets an answer, and the answer tells what happened. *)
Lemma handleRequest_answer request w :
  exists r w',
    handleRequest env request w = (Returned r, w')
    /\ (statusCode r = 200
        \/ (statusCode r = 400 /\ w' = w)
        \/ (statusCode r = 500
            /\ SmartAppRequest.lifecycle request = "CONFIRMATION")).
Proof.
  unfold handleRequest.
  destruct (String.eqb_spec (SmartAppRequest.lifecycle request) "PING").
  { unfold ret, handlePing. eexists _, _. split; [reflexivity |].
    destruct (SmartAppRequest.pingData request) as [p |]; [| by right; left].
    destruct (truthy_string _); [by left | by right; left]. }
  destruct (String.eqb_spec (SmartAppRequest.lifecycle request) "CONFIRMATION") as [E |].
  { rewrite handleConfirmation_exact.
    destruct (SmartAppRequest.confirmationData request) as [c |];
      [| eexists _, _; split; [reflexivity | by right; left]].
    destruct (truthy_string _);
      [| eexists _, _; split; [reflexivity | by right; left]].
    eexists _, _. split; [reflexivity |]. simpl.
    destruct (get_reply env _); [by left | by right; right]. }
  destruct (String.eqb_spec (SmartAppRequest.lifecycle request) "CONFIGURATION").
  { unfold ret, handleConfiguration. eexists _, _. split; [reflexivity |].
    destruct (SmartAppRequest.configurationData request) as [c |]; [| by right; left].
    repeat destruct (String.eqb _ _); by left. }
  destruct (String.eqb_spec (SmartAppRequest.lifecycle request) "INSTALL").
  { destruct (SmartAppRequest.installData request) as [data |] eqn:Hd.
    - destruct (handleInstall_exact env request data w Hd) as (new & E).
      rewrite E. eexists _, _. split; [reflexivity | by left].
    - unfold handleInstall. rewrite Hd. eexists _, _. split; [reflexivity | by right; left]. }
  destruct (String.eqb_spec (SmartAppRequest.lifecycle request) "UPDATE").
  { destruct (SmartAppRequest.updateData request) as [data |] eqn:Hd.
    - destruct (handleUpdate_exact env request data w Hd) as (new & E).
      rewrite E. eexists _, _. split; [reflexivity | by left].
    - unfold handleUpdate. rewrite Hd. eexists _, _. split; [reflexivity | by right; left]. }
  destruct (String.eqb_spec (SmartAppRequest.lifecycle request) "EVENT").
  { destruct (SmartAppRequest.eventData request) as [ed |] eqn:Hd.
    - destruct (handleEvent_effect env request ed w Hd) as (h1 & _ & w' & E & _).
      rewrite E. eexists _, _. split; [reflexivity | by left].
    - unfold handleEvent. rewrite Hd. eexists _, _. split; [reflexivity | by right; left]. }
  destruct (String.eqb_spec (SmartAppRequest.lifecycle request) "UNINSTALL").
  { rewrite handleUninstall_exact. eexists _, _. split; [reflexivity | by left]. }
  eexists _, _. split; [reflexivity | by left].
Qed.

End Answers.


(** X3. A message answered 400 has changed nothing: credentials,
    registration, file and trace are what they were, so no call was made.
    INSTALL, UPDATE and EVENT messages without their payload are answered
    400. *)
Theorem rejected_message_changes_nothing
    (env : Env) (request : SmartAppRequest.t) (w : World) :
  (forall r, fst (handleRequest env request w) = Returned r ->
             statusCode r = 400 ->
             snd (handleRequest env request w) = w)
  /\ (SmartAppRequest.lifecycle request = "INSTALL" ->
      SmartAppRequest.installData request = None ->
      handleRequest env request w = (Returned (mkResponse 400 NoData), w))
  /\ (SmartAppRequest.lifecycle request = "UPDATE" ->
      SmartAppRequest.updateData request = None ->
      handleRequest env request w = (Returned (mkResponse 400 NoData), w))
  /\ (SmartAppRequest.lifecycle request = "EVENT" ->
      SmartAppRequest.eventData request = None ->
      handleRequest env request w = (Returned (mkResponse 400 NoData), w)).
Proof.
  split; [| split; [| split]].
  - intros r Hr Hs.
    destruct (handleRequest_answer env request w) as (r' & w' & E & H).
    rewrite E in Hr |- *. simpl in *. inversion Hr; subst r'.
    destruct H as [H | [[_ H] | [H _]]]; [lia | done | lia].
  - intros Hl Hd. unfold handleRequest. rewrite Hl. simpl.
    unfold handleInstall. by rewrite Hd.
  - intros Hl Hd. unfold handleRequest. rewrite Hl. simpl.
    unfold handleUpdate. by rewrite Hd.
  - intros Hl Hd. unfold handleRequest. rewrite Hl. simpl.
    unfold handleEvent. by rewrite Hd.
Qed.

Lemma rejected_message_changes_nothing_witness :
  snd (handleRequest Sample.friendly (Sample.request "CONFIRMATION")
         (Sample.world (Sample.installed ["d1"])))
  = Sample.world (Sample.installed ["d1"])
  /\ handleRequest Sample.friendly (Sample.request "INSTALL")
       (Sample.world (Sample.installed ["d1"]))
     = (Returned (mkResponse 400 NoData), Sample.world (Sample.installed ["d1"]))
  /\ handleRequest Sample.friendly (Sample.request "UPDATE")
       (Sample.world (Sample.installed ["d1"]))
     = (Returned (mkResponse 400 NoData), Sample.world (Sample.installed ["d1"]))
  /\ handleRequest Sample.friendly (Sample.request "EVENT")
       (Sample.world (Sample.installed ["d1"]))
     = (Returned (mkResponse 400 NoData), Sample.world (Sample.installed ["d1"])).
Proof.
  split; [| split; [| split]].
  - refine (proj1 (rejected_message_changes_nothing Sample.friendly
                     (Sample.request "CONFIRMATION")
                     (Sample.world (Sample.installed ["d1"])))
                  (mkResponse 400 NoData) _ _); reflexivity.
  - refine (proj1 (proj2 (rejected_message_changes_nothing Sample.friendly
                            (Sample.request "INSTALL")
                            (Sample.world (Sample.installed ["d1"])))) _ _);
      reflexivity.
  - refine (proj1 (proj2 (proj2 (rejected_message_changes_nothing Sample.friendly
                                   (Sample.request "UPDATE")
                                   (Sample.world (Sample.installed ["d1"]))))) _ _);
      reflexivity.
  - refine (proj2 (proj2 (proj2 (rejected_message_changes_nothing Sample.friendly
                                   (Sample.request "EVENT")
                                   (Sample.world (Sample.installed ["d1"]))))) _ _);
      reflexivity.
Defined.

(** ** The calls of INSTALL, UPDATE and registration *)

Lemma truthy_string_true s : truthy_string s = true <-> s <> "".
Proof.
  unfold truthy_string. destruct (String.eqb_spec s ""); simpl; split; congruence.
Qed.

Section Calls.

Variable env : Env.

Lemma createDeviceSubscriptions_exact w :
  createDeviceSubscriptions env w
  = (Returned tt,
     mkWorld (handler w) (disk w) (trace w ++ bulk_create_requests (handler w))).
Proof.
  unfold createDeviceSubscriptions, bulk_create_requests, bind at 1, this at 1.
  destruct (missing_credentials (handler w)).
  { unfold ret. by rewrite app_nil_r, world_eta. }
  destruct (deviceIds (handler w)) as [| d ds] eqn:HD; simpl.
  { unfold ret. by rewrite app_nil_r, world_eta. }
  by rewrite create_each_exact.
Qed.

Lemma createDeviceLifecycleSubscription_exact w :
  createDeviceLifecycleSubscription env w
  = (Returned tt,
     mkWorld (handler w) (disk w) (trace w ++ lifecycle_request (handler w))).
Proof.
  unfold createDeviceLifecycleSubscription, lifecycle_request, bind at 1, this at 1.
  destruct (_ || _).
  { unfold ret. by rewrite app_nil_r, world_eta. }
  unfold try_catch, bind, emit, ret, throw. simpl.
  by destruct (post_reply env _).
Qed.

Lemma deleteAllSubscriptions_exact w :
  deleteAllSubscriptions env w
  = (Returned tt,
     mkWorld (handler w) (disk w) (trace w ++ delete_request (handler w))).
Proof.
  unfold deleteAllSubscriptions, delete_request, bind at 1, this at 1.
  destruct (missing_credentials (handler w)).
  { unfold ret. by rewrite app_nil_r, world_eta. }
  unfold try_catch, bind, emit, ret, throw. simpl.
  by destruct (delete_reply env _).
Qed.

Lemma syncDeviceSubscriptions_exact w :
  syncDeviceSubscriptions env w
  = (Returned tt, mkWorld (handler w) (disk w) (trace w ++ sync_requests env w)).
Proof.
  unfold sync_requests.
  destruct (missing_credentials (handler w)) eqn:Hc.
  - unfold syncDeviceSubscriptions, bind at 1, this at 1. rewrite Hc.
    unfold ret. by rewrite app_nil_r, world_eta.
  - by rewrite (sync_exact env w Hc).
Qed.

Lemma handleInstall_calls request data w :
  SmartAppRequest.installData request = Some data ->
  let h1 := install_credentials data (handler w) in
  issued w (snd (handleInstall env request w))
  = bulk_create_requests h1 ++ lifecycle_request h1.
Proof.
  intros Hd h1. unfold handleInstall. rewrite Hd.
  unfold store_credentials, bind at 1, update at 1.
  rewrite (bind_returned _ _ _ _ _ (saveCredentials_exact _ _)).
  rewrite (bind_returned _ _ _ _ _ (createDeviceSubscriptions_exact _)).
  rewrite (bind_returned _ _ _ _ _ (createDeviceLifecycleSubscription_exact _)).
  unfold ret, issued. simpl. by rewrite <- app_assoc, drop_app_length.
Qed.

Lemma handleUpdate_calls request data w :
  SmartAppRequest.updateData request = Some data ->
  let h1 := install_credentials data (handler w) in
  issued w (snd (handleUpdate env request w))
  = delete_request h1 ++ bulk_create_requests h1 ++ lifecycle_request h1.
Proof.
  intros Hd h1. unfold handleUpdate. rewrite Hd.
  unfold store_credentials, bind at 1, update at 1.
  rewrite (bind_returned _ _ _ _ _ (saveCredentials_exact _ _)).
  rewrite (bind_returned _ _ _ _ _ (deleteAllSubscriptions_exact _)).
  rewrite (bind_returned _ _ _ _ _ (createDeviceSubscriptions_exact _)).
  rewrite (bind_returned _ _ _ _ _ (createDeviceLifecycleSubscription_exact _)).
  unfold ret, issued. simpl. by rewrite <- !app_assoc, drop_app_length.
Qed.

Lemma missing_credentials_install data h :
  missing_credentials (install_credentials data h)
  = negb (truthy_string (InstalledApp.installedAppId (InstallData.installedApp data)))
    || negb (truthy_string (InstallData.authToken data)).
Proof. reflexivity. Qed.

End Calls.

(** X4. An INSTALL that carries a non-empty installed-app id, token and
    location id issues exactly one subscription create per registered device,
    in registration order and with the credentials of the payload, followed by
    the lifecycle subscription; it neither lists nor deletes.  When the id or
    the token of the payload is empty, the credentials are stored but no call
    is made. *)
Theorem install_subscribes_every_device
    (env : Env) (request : SmartAppRequest.t) (data : InstallData.t) (w : World) :
  SmartAppRequest.lifecycle request = "INSTALL" ->
  SmartAppRequest.installData request = Some data ->
  let app := InstalledApp.installedAppId (InstallData.installedApp data) in
  let token := InstallData.authToken data in
  let location := InstalledApp.locationId (InstallData.installedApp data) in
  let calls := issued w (snd (handleRequest env request w)) in
  (app <> "" -> token <> "" -> location <> "" ->
   calls = map (PostDeviceSubscription (Some app) (Some token)) (deviceIds (handler w))
           ++ [PostLifecycleSubscription (Some app) (Some token) (Some location)])
  /\ (app = "" \/ token = "" -> calls = []).
Proof.
  intros Hl Hd app token location calls.
  assert (E : calls = bulk_create_requests (install_credentials data (handler w))
                      ++ lifecycle_request (install_credentials data (handler w))).
  { subst calls. unfold handleRequest. rewrite Hl. simpl.
    by apply handleInstall_calls. }
  rewrite E. unfold bulk_create_requests, lifecycle_request.
  rewrite missing_credentials_install. fold app token. simpl. fold location.
  split.
  - intros Ha Ht Hloc. apply truthy_string_true in Ha, Ht, Hloc.
    by rewrite Ha, Ht, Hloc.
  - intros [-> | ->]; simpl; [done |]. by rewrite orb_true_r.
Qed.

Lemma install_subscribes_every_device_witness :
  issued (Sample.world (with_deviceIds ["d1"; "d2"] initial_handler))
    (snd (handleRequest Sample.conflicting
            (Sample.install "app-1" "token-1" "refresh-1" "loc-1")
            (Sample.world (with_deviceIds ["d1"; "d2"] initial_handler))))
  = [PostDeviceSubscription (Some "app-1") (Some "token-1") "d1";
     PostDeviceSubscription (Some "app-1") (Some "token-1") "d2";
     PostLifecycleSubscription (Some "app-1") (Some "token-1") (Some "loc-1")]
  /\ issued (Sample.world (with_deviceIds ["d1"; "d2"] initial_handler))
       (snd (handleRequest Sample.friendly
               (Sample.install "app-1" "" "refresh-1" "loc-1")
               (Sample.world (with_deviceIds ["d1"; "d2"] initial_handler))))
     = [].
Proof.
  split.
  - refine (proj1 (install_subscribes_every_device Sample.conflicting
                     (Sample.install "app-1" "token-1" "refresh-1" "loc-1")
                     (InstallData.mk "token-1" "refresh-1"
                        (InstalledApp.mk "app-1" "loc-1"))
                     (Sample.world (with_deviceIds ["d1"; "d2"] initial_handler))
                     eq_refl eq_refl) _ _ _); simpl; discriminate.
  - refine (proj2 (install_subscribes_every_device Sample.friendly
                     (Sample.install "app-1" "" "refresh-1" "loc-1")
                     (InstallData.mk "" "refresh-1" (InstalledApp.mk "app-1" "loc-1"))
                     (Sample.world (with_deviceIds ["d1"; "d2"] initial_handler))
                     eq_refl eq_refl) _).
    right. reflexivity.
Defined.

(** X5. An UPDATE that carries a non-empty installed-app id, token and
    location id first deletes all subscriptions of the installation, then
    creates one subscription per registered device in registration order, then
    the lifecycle subscription, all with the credentials of the payload and
    whatever the platform answers to each call. *)
Theorem update_deletes_then_recreates
    (env : Env) (request : SmartAppRequest.t) (data : InstallData.t) (w : World) :
  SmartAppRequest.lifecycle request = "UPDATE" ->
  SmartAppRequest.updateData request = Some data ->
  let app := InstalledApp.installedAppId (InstallData.installedApp data) in
  let token := InstallData.authToken data in
  let location := InstalledApp.locationId (InstallData.installedApp data) in
  app <> "" -> token <> "" -> location <> "" ->
  issued w (snd (handleRequest env request w))
  = DeleteSubscriptions (Some app) (Some token)
    :: map (PostDeviceSubscription (Some app) (Some token)) (deviceIds (handler w))
    ++ [PostLifecycleSubscription (Some app) (Some token) (Some location)].
Proof.
  intros Hl Hd app token location Ha Ht Hloc.
  unfold handleRequest. rewrite Hl. simpl. rewrite (handleUpdate_calls env request data w Hd).
  unfold delete_request, bulk_create_requests, lifecycle_request.
  rewrite missing_credentials_install. fold app token. simpl. fold location.
  apply truthy_string_true in Ha, Ht, Hloc. by rewrite Ha, Ht, Hloc.
Qed.

Lemma update_deletes_then_recreates_witness :
  issued (Sample.world (Sample.installed ["d1"; "d2"]))
    (snd (handleRequest Sample.conflicting
            (Sample.update "app-1" "token-3" "refresh-3" "loc-1")
            (Sample.world (Sample.installed ["d1"; "d2"]))))
  = [DeleteSubscriptions (Some "app-1") (Some "token-3");
     PostDeviceSubscription (Some "app-1") (Some "token-3") "d1";
     PostDeviceSubscription (Some "app-1") (Some "token-3") "d2";
     PostLifecycleSubscription (Some "app-1") (Some "token-3") (Some "loc-1")].
Proof.
  refine (update_deletes_then_recreates Sample.conflicting
            (Sample.update "app-1" "token-3" "refresh-3" "loc-1")
            (InstallData.mk "token-3" "refresh-3" (InstalledApp.mk "app-1" "loc-1"))
            (Sample.world (Sample.installed ["d1"; "d2"]))
            eq_refl eq_refl _ _ _); simpl; discriminate.
Defined.

(** ** Registration *)

Lemma missing_credentials_installed h :
  missing_credentials h = false -> isInstalled h = true.
Proof.
  unfold missing_credentials, isInstalled.
  destruct (installedAppId h), (authToken h); simpl; try done.
  by rewrite orb_true_r.
Qed.

Lemma create_calls_app t1 t2 : create_calls (t1 ++ t2) = create_calls t1 ++ create_calls t2.
Proof. unfold create_calls. apply flat_map_app. Qed.

Lemma create_calls_lifecycle_request h : create_calls (lifecycle_request h) = [].
Proof. unfold lifecycle_request. by destruct (_ || _). Qed.

Lemma setDeviceIds_exact (env : Env) ids w :
  let h1 := with_deviceIds ids (handler w) in
  let w1 := mkWorld h1 (disk w) (trace w) in
  setDeviceIds env ids w
  = (Returned tt,
     mkWorld h1 (disk w)
       (trace w ++ if isInstalled (handler w) && negb (Nat.eqb (length ids) 0)
                   then sync_requests env w1 ++ lifecycle_request h1
                   else [])).
Proof.
  intros h1 w1. unfold setDeviceIds, bind at 1, update at 1, bind at 1, this at 1.
  simpl. change (isInstalled (with_deviceIds ids (handler w)))
    with (isInstalled (handler w)).
  destruct (isInstalled (handler w) && negb (Nat.eqb (length ids) 0)).
  - rewrite (bind_returned _ _ _ _ _ (syncDeviceSubscriptions_exact env _)).
    rewrite createDeviceLifecycleSubscription_exact. simpl. by rewrite <- app_assoc.
  - unfold ret. by rewrite app_nil_r.
Qed.

(** X6. [setDeviceIds] replaces the registration by the given list and
    touches neither credentials nor file.  Without credentials, or with an
    empty list, it makes no call.  With credentials and a non-empty list it
    reconciles at once: the creates it issues are exactly the given ids that
    the remote list does not cover. *)
Theorem setDeviceIds_replaces_and_reconciles (env : Env) (ids : list string) (w : World) :
  let w' := snd (setDeviceIds env ids w) in
  let R := remoteDeviceIds env (mkWorld (with_deviceIds ids (handler w)) (disk w) (trace w)) in
  fst (setDeviceIds env ids w) = Returned tt
  /\ handler w' = with_deviceIds ids (handler w)
  /\ disk w' = disk w
  /\ (isInstalled (handler w) = false \/ ids = [] -> trace w' = trace w)
  /\ (missing_credentials (handler w) = false -> ids <> [] ->
      create_calls (issued w w') = filter (fun id => id ∉ R) ids).
Proof.
  intros w' R. subst w'. rewrite setDeviceIds_exact. simpl.
  do 3 (split; [done |]). split.
  - intros [-> | ->]; simpl; [| rewrite andb_false_r]; by rewrite app_nil_r.
  - intros Hc Hne. rewrite issued_app, (missing_credentials_installed _ Hc).
    destruct ids as [| i ids]; [done |]. simpl negb. simpl andb. cbv iota.
    rewrite create_calls_app, create_calls_lifecycle_request, app_nil_r.
    unfold sync_requests. simpl handler.
    change (missing_credentials (with_deviceIds (i :: ids) (handler w)))
      with (missing_credentials (handler w)).
    rewrite Hc. simpl deviceIds. cbv iota. simpl create_calls at 1.
    apply create_calls_posts.
Qed.

Lemma setDeviceIds_replaces_and_reconciles_witness :
  trace (snd (setDeviceIds Sample.friendly ["d1"; "d2"] (construct None))) = []
  /\ create_calls
       (issued (Sample.world (Sample.installed ["d7"]))
          (snd (setDeviceIds (Sample.listing ["d2"]) ["d1"; "d2"; "d3"]
                  (Sample.world (Sample.installed ["d7"])))))
     = ["d1"; "d3"].
Proof.
  split.
  - refine (proj1 (proj2 (proj2 (proj2 (setDeviceIds_replaces_and_reconciles
                                          Sample.friendly ["d1"; "d2"] (construct None)))))
                  _).
    left. reflexivity.
  - refine (eq_trans
              (proj2 (proj2 (proj2 (proj2 (setDeviceIds_replaces_and_reconciles
                                             (Sample.listing ["d2"]) ["d1"; "d2"; "d3"]
                                             (Sample.world (Sample.installed ["d7"]))))))
                     _ _) _).
    + reflexivity.
    + discriminate.
    + vm_compute. reflexivity.
Defined.

(** ** EVENT: first contact, failing creates, credentials *)

Section EventLoop.

Variable env : Env.

(** What the loop does with a lifecycle item, against any platform: a CREATE
    is one create attempt, its device is registered unless the attempt is
    rejected, and the lifecycle consumers are notified in either case. *)
Lemma lifecycle_item_any (le : DeviceLifecycleEvent.t) w :
  let created :=
    if String.eqb (DeviceLifecycleEvent.lifecycle le) "CREATE"
    then [DeviceLifecycleEvent.deviceId le] else [] in
  exists w' ids new,
    bind (if String.eqb (DeviceLifecycleEvent.lifecycle le) "CREATE"
          then try_catch
                 (bind (createDeviceSubscription env (DeviceLifecycleEvent.deviceId le))
                       (fun _ => update (fun h =>
                          with_deviceIds
                            (deviceIds h ++ [DeviceLifecycleEvent.deviceId le]) h)))
                 (fun _ => ret tt)
          else ret tt)
         (fun _ => notifyDeviceLifecycleHandlers
                     (DeviceLifecycleEvent.lifecycle le)
                     (DeviceLifecycleEvent.deviceId le)
                     (DeviceLifecycleEvent.deviceName le)) w
    = (Returned tt, w')
    /\ handler w' = with_deviceIds (deviceIds (handler w) ++ ids) (handler w)
    /\ trace w' = trace w ++ new
    /\ create_calls new = created
    /\ sublist ids created
    /\ ((forall t, accepted (post_reply env t) = false) -> ids = []).
Proof.
  assert (HL : forall lc id name hs,
    create_calls (map (fun k => LifecycleHandlerCalled k lc id name) hs) = [])
    by (intros lc id name hs; induction hs; simpl; auto).
  intros created. subst created.
  unfold notifyDeviceLifecycleHandlers.
  destruct (String.eqb (DeviceLifecycleEvent.lifecycle le) "CREATE").
  - unfold bind at 1, try_catch, bind at 1, createDeviceSubscription, bind at 1,
      this at 1, try_catch, bind at 1, emit at 1. simpl.
    destruct (post_reply env _) as [| st] eqn:Hr; simpl;
      [| destruct (is_409 st) eqn:H9; simpl].
    + unfold bind at 1, this at 1. rewrite call_each_exact. simpl.
      eexists _, [DeviceLifecycleEvent.deviceId le], _.
      split; [reflexivity |]. simpl. split; [done |].
      split; [by rewrite <- app_assoc |].
      rewrite create_calls_app, HL. simpl. do 2 (split; [done |]).
      intros Hrej. specialize (Hrej (trace w ++
        [PostDeviceSubscription (installedAppId (handler w))
           (authToken (handler w)) (DeviceLifecycleEvent.deviceId le)])).
      rewrite Hr in Hrej. discriminate Hrej.
    + unfold bind at 1, this at 1. rewrite call_each_exact. simpl.
      eexists _, [DeviceLifecycleEvent.deviceId le], _.
      split; [reflexivity |]. simpl. split; [done |].
      split; [by rewrite <- app_assoc |].
      rewrite create_calls_app, HL. simpl. do 2 (split; [done |]).
      intros Hrej. specialize (Hrej (trace w ++
        [PostDeviceSubscription (installedAppId (handler w))
           (authToken (handler w)) (DeviceLifecycleEvent.deviceId le)])).
      rewrite Hr in Hrej. simpl in Hrej. congruence.
    + unfold bind at 1, this at 1. rewrite call_each_exact. simpl.
      eexists _, [], _. split; [reflexivity |]. simpl.
      rewrite with_deviceIds_same. split; [done |].
      split; [by rewrite <- app_assoc |].
      rewrite create_calls_app, HL. simpl. split; [done |].
      split; [apply sublist_nil_l | done].
  - unfold bind at 1, ret at 1, bind at 1, this at 1. rewrite call_each_exact.
    eexists _, [], _. split; [reflexivity |]. simpl.
    rewrite with_deviceIds_same, HL. repeat split; try done; constructor.
Qed.

(** One round of the loop against any platform. *)
Lemma process_event_any ev w :
  exists w' ids new,
    process_event env ev w = (Returned tt, w')
    /\ handler w' = with_deviceIds (deviceIds (handler w) ++ ids) (handler w)
    /\ trace w' = trace w ++ new
    /\ create_calls new = createdDevices [ev]
    /\ sublist ids (createdDevices [ev])
    /\ ((forall t, accepted (post_reply env t) = false) -> ids = []).
Proof.
  assert (Hskip : exists w' ids new,
    (Returned tt : Outcome unit, w) = (Returned tt, w')
    /\ handler w' = with_deviceIds (deviceIds (handler w) ++ ids) (handler w)
    /\ trace w' = trace w ++ new
    /\ create_calls new = []
    /\ sublist ids []
    /\ ((forall t, accepted (post_reply env t) = false) -> ids = [])).
  { exists w, [], []. rewrite with_deviceIds_same, app_nil_r.
    repeat split; try done; constructor. }
  unfold process_event, createdDevices. simpl.
  destruct (String.eqb (SmartThingsEvent.eventType ev) "DEVICE_EVENT") eqn:E1,
           (SmartThingsEvent.deviceEvent ev) as [de |] eqn:E2.
  1: { unfold notifyEventHandlers, bind at 1, this at 1. rewrite call_each_exact.
       eexists _, [], _. split; [reflexivity |]. simpl. rewrite with_deviceIds_same.
       do 2 (split; [done |]). split; [| split; [constructor | done]].
       induction (eventHandlers (handler w)); simpl; auto. }
  all: destruct (String.eqb (SmartThingsEvent.eventType ev) "DEVICE_LIFECYCLE_EVENT");
    [| exact Hskip].
  all: destruct (SmartThingsEvent.deviceLifecycleEvent ev) as [le |]; [| exact Hskip].
  all: rewrite app_nil_r; apply lifecycle_item_any.
Qed.

Lemma createdDevices_cons ev evs :
  createdDevices (ev :: evs) = createdDevices [ev] ++ createdDevices evs.
Proof. unfold createdDevices. simpl. by rewrite app_nil_r. Qed.

Lemma events_any evs w :
  exists w' ids new,
    for_each evs (process_event env) w = (Returned tt, w')
    /\ handler w' = with_deviceIds (deviceIds (handler w) ++ ids) (handler w)
    /\ trace w' = trace w ++ new
    /\ create_calls new = createdDevices evs
    /\ sublist ids (createdDevices evs)
    /\ ((forall t, accepted (post_reply env t) = false) -> ids = []).
Proof.
  revert w. induction evs as [| ev evs IH]; intros w.
  - exists w, [], []. rewrite with_deviceIds_same, app_nil_r.
    repeat split; try done; constructor.
  - destruct (process_event_any ev w) as (w1 & i1 & n1 & E1 & H1 & T1 & C1 & S1 & R1).
    destruct (IH w1) as (w2 & i2 & n2 & E2 & H2 & T2 & C2 & S2 & R2).
    exists w2, (i1 ++ i2), (n1 ++ n2). simpl for_each. unfold bind. rewrite E1.
    rewrite createdDevices_cons.
    split; [exact E2 |]. split; [| split; [| split; [| split]]].
    + rewrite H2, H1. unfold with_deviceIds; simpl. by rewrite app_assoc.
    + by rewrite T2, T1, app_assoc.
    + by rewrite create_calls_app, C1, C2.
    + by apply sublist_app.
    + intros Hrej. by rewrite R1, R2.
Qed.

End EventLoop.

(** X7. An EVENT handled while credentials are present makes exactly one
    create attempt per lifecycle CREATE item, in order, whatever the platform
    answers, and is answered 200.  The devices appended to the registration
    are among the created ones, in order; when the platform rejects every
    create, the registration is left as it was. *)
Theorem event_create_attempts
    (env : Env) (request : SmartAppRequest.t) (eventData : EventData.t) (w : World) :
  SmartAppRequest.lifecycle request = "EVENT" ->
  SmartAppRequest.eventData request = Some eventData ->
  isInstalled (handler w) = true ->
  let w' := snd (handleRequest env request w) in
  fst (handleRequest env request w) = Returned (mkResponse 200 EventDataOut)
  /\ create_calls (issued w w') = createdDevices (EventData.events eventData)
  /\ exists ids,
       deviceIds (handler w') = deviceIds (handler w) ++ ids
       /\ sublist ids (createdDevices (EventData.events eventData))
       /\ ((forall t, accepted (post_reply env t) = false) -> ids = []).
Proof.
  intros Hl Hed Hin w'.
  destruct (handleEvent_installed env request eventData w Hl Hed Hin)
    as (w1 & Ht & Hd & Hh & Heq).
  destruct (events_any env (EventData.events eventData) w1)
    as (w2 & ids & new & E & HH & HT & HC & HS & HR).
  assert (Hres : handleRequest env request w
                 = (Returned (mkResponse 200 EventDataOut), w2)).
  { rewrite Heq. unfold bind. by rewrite E. }
  subst w'. rewrite Hres. simpl. split; [done |]. split.
  - unfold issued. by rewrite HT, Ht, drop_app_length.
  - exists ids. rewrite HH. simpl. by rewrite Hd.
Qed.

Lemma event_create_attempts_witness :
  let rejecting :=
    mkEnv (fun _ => Some []) (fun _ => Rejected (Some 500)) (fun _ => Resolved)
          (fun _ => Resolved) true 0 in
  let w := Sample.world (Sample.installed ["d1"; "d2"]) in
  create_calls (issued w (snd (handleRequest rejecting Sample.eventMessage w))) = ["d9"].
Proof.
  intros rejecting w.
  exact (proj1 (proj2 (event_create_attempts rejecting Sample.eventMessage
                         (EventData.mk (Some "token-2")
                            (Some (InstalledApp.mk "app-1" "loc-1")) Sample.items)
                         w eq_refl eq_refl eq_refl))).
Defined.

(** The same message against a platform that rejects the create: the device
    is not registered. *)
Example event_rejected_run :
  deviceIds (handler (snd (handleRequest
    (mkEnv (fun _ => Some []) (fun _ => Rejected (Some 500)) (fun _ => Resolved)
           (fun _ => Resolved) true 0)
    Sample.eventMessage (Sample.world (Sample.installed ["d1"; "d2"])))))
  = ["d1"; "d2"].
Proof. vm_compute. reflexivity. Qed.

(** X8. The first EVENT that brings credentials to a handler that has none
    but already has devices registered reconciles before it looks at the
    items: it lists the remote subscriptions, creates one subscription per
    registered entry the list does not cover, and creates the lifecycle
    subscription, all with the credentials of the event.  With an empty item
    list these are all its calls. *)
Theorem first_event_reconciles
    (env : Env) (request : SmartAppRequest.t) (eventData : EventData.t)
    (app : InstalledApp.t) (token : string) (w : World) :
  SmartAppRequest.lifecycle request = "EVENT" ->
  SmartAppRequest.eventData request = Some eventData ->
  EventData.authToken eventData = Some token ->
  EventData.installedApp eventData = Some app ->
  token <> "" ->
  InstalledApp.installedAppId app <> "" ->
  InstalledApp.locationId app <> "" ->
  isInstalled (handler w) = false ->
  deviceIds (handler w) <> [] ->
  let id := Some (InstalledApp.installedAppId app) in
  let h1 := with_credentials id (Some token) (refreshToken (handler w))
              (Some (InstalledApp.locationId app)) (handler w) in
  let R := remoteDeviceIds env (mkWorld h1 (disk w) (trace w)) in
  exists rest,
    issued w (snd (handleRequest env request w))
    = GetSubscriptions id (Some token)
      :: map (PostDeviceSubscription id (Some token))
             (filter (fun d => d ∉ R) (deviceIds (handler w)))
      ++ [PostLifecycleSubscription id (Some token) (Some (InstalledApp.locationId app))]
      ++ rest
    /\ (EventData.events eventData = [] -> rest = []).
Proof.
  intros Hl Hed Htok Happ Ht Ha Hloc Hin HD id h1 R.
  apply truthy_string_true in Ht, Ha, Hloc.
  unfold handleRequest. rewrite Hl. simpl.
  unfold handleEvent. rewrite Hed, Htok, Happ. unfold bind at 1, this at 1.
  simpl. rewrite Ht, Hin. simpl.
  destruct (deviceIds (handler w)) as [| d0 ds] eqn:HDs; [done |]. simpl.
  match goal with
  | |- context [bind (bind (update ?f) ?k1) ?k2 w] =>
      change (bind (bind (update f) k1) k2 w)
        with (bind (k1 tt) k2 (mkWorld h1 (disk w) (trace w)))
  end.
  set (w1 := mkWorld h1 (disk w) (trace w)).
  assert (Hsync : syncPendingSubscriptions env w1
    = (Returned tt,
       mkWorld h1 (disk w)
         (trace w ++ sync_requests env w1 ++ lifecycle_request h1))).
  { unfold syncPendingSubscriptions, bind at 1, this at 1. simpl. rewrite HDs. simpl.
    rewrite (bind_returned _ _ _ _ _ (syncDeviceSubscriptions_exact env _)).
    rewrite createDeviceLifecycleSubscription_exact. subst w1.
    cbn [handler disk trace]. by rewrite <- List.app_assoc. }
  rewrite (bind_returned _ _ _ _ _ Hsync).
  set (w2 := mkWorld h1 (disk w) (trace w ++ sync_requests env w1 ++ lifecycle_request h1)).
  destruct (events_any env (EventData.events eventData) w2)
    as (w3 & ids & new & E & HH & HT & HC & HS & HR).
  rewrite (bind_returned _ _ _ _ _ E). unfold ret. simpl.
  exists new. split.
  - unfold issued. rewrite HT. subst w2. simpl. rewrite <- !app_assoc, drop_app_length.
    unfold sync_requests, lifecycle_request, missing_credentials. subst w1 h1. simpl.
    rewrite Ha, Ht, Hloc, HDs. reflexivity.
  - intros Hev. rewrite Hev in E. simpl in E. unfold ret in E.
    inversion E; subst w3. subst w2. simpl in HT.
    rewrite <- (app_nil_r (trace w ++ _)) in HT at 1.
    by apply app_inv_head in HT.
Qed.

Lemma first_event_reconciles_witness :
  exists rest,
    issued (Sample.world (with_deviceIds ["d1"; "d2"] initial_handler))
      (snd (handleRequest (Sample.listing ["d2"])
              (Sample.event (Some "token-2") (Some (InstalledApp.mk "app-1" "loc-1")) [])
              (Sample.world (with_deviceIds ["d1"; "d2"] initial_handler))))
    = GetSubscriptions (Some "app-1") (Some "token-2")
      :: map (PostDeviceSubscription (Some "app-1") (Some "token-2"))
             (filter (fun d => d ∉ remoteDeviceIds (Sample.listing ["d2"])
                        (mkWorld (with_credentials (Some "app-1") (Some "token-2") None
                                    (Some "loc-1")
                                    (with_deviceIds ["d1"; "d2"] initial_handler))
                                 None []))
                     ["d1"; "d2"])
      ++ [PostLifecycleSubscription (Some "app-1") (Some "token-2") (Some "loc-1")]
      ++ rest
    /\ ([] = @nil SmartThingsEvent.t -> rest = []).
Proof.
  refine (first_event_reconciles (Sample.listing ["d2"])
            (Sample.event (Some "token-2") (Some (InstalledApp.mk "app-1" "loc-1")) [])
            (EventData.mk (Some "token-2") (Some (InstalledApp.mk "app-1" "loc-1")) [])
            (InstalledApp.mk "app-1" "loc-1") "token-2"
            (Sample.world (with_deviceIds ["d1"; "d2"] initial_handler))
            eq_refl eq_refl eq_refl eq_refl _ _ _ eq_refl _); simpl; discriminate.
Defined.

(** The bootstrap, run: d2 is already subscribed, so only d1 is created. *)
Example first_event_run :
  trace (snd (handleRequest (Sample.listing ["d2"])
                (Sample.event (Some "token-2") (Some (InstalledApp.mk "app-1" "loc-1")) [])
                (Sample.world (with_deviceIds ["d1"; "d2"] initial_handler))))
  = [GetSubscriptions (Some "app-1") (Some "token-2");
     PostDeviceSubscription (Some "app-1") (Some "token-2") "d1";
     PostLifecycleSubscription (Some "app-1") (Some "token-2") (Some "loc-1")].
Proof. vm_compute. reflexivity. Qed.

(** One message only ever appends to the registration and leaves the two
    consumer lists alone. *)
Lemma handleRequest_registration (env : Env) request w :
  let h' := handler (snd (handleRequest env request w)) in
  deviceIds (handler w) `prefix_of` deviceIds h'
  /\ eventHandlers h' = eventHandlers (handler w)
  /\ deviceLifecycleHandlers h' = deviceLifecycleHandlers (handler w).
Proof.
  assert (Hsame : deviceIds (handler w) `prefix_of` deviceIds (handler w)
                  /\ eventHandlers (handler w) = eventHandlers (handler w)
                  /\ deviceLifecycleHandlers (handler w)
                     = deviceLifecycleHandlers (handler w)) by done.
  assert (Hext : forall h1 w',
    deviceIds h1 = deviceIds (handler w) ->
    eventHandlers h1 = eventHandlers (handler w) ->
    deviceLifecycleHandlers h1 = deviceLifecycleHandlers (handler w) ->
    extends (mkWorld h1 (disk w) (trace w)) w' ->
    deviceIds (handler w) `prefix_of` deviceIds (handler w')
    /\ eventHandlers (handler w') = eventHandlers (handler w)
    /\ deviceLifecycleHandlers (handler w') = deviceLifecycleHandlers (handler w)).
  { intros h1 w' Hd He Hl (ids & new & ->). simpl. rewrite Hd.
    split; [by apply prefix_app_r | done]. }
  unfold handleRequest.
  repeat match goal with
  | |- context [if String.eqb ?a ?b then _ else _] => destruct (String.eqb a b)
  end; try exact Hsame.
  - destruct (benign_handleConfirmation env request w) as (r & w' & E & X).
    rewrite E. simpl. rewrite <- (world_eta w) in X.
    refine (Hext _ _ _ _ _ X); done.
  - destruct (SmartAppRequest.installData request) as [data |] eqn:Hd.
    + destruct (handleInstall_exact env request data w Hd) as (new & E). by rewrite E.
    + unfold handleInstall. by rewrite Hd.
  - destruct (SmartAppRequest.updateData request) as [data |] eqn:Hd.
    + destruct (handleUpdate_exact env request data w Hd) as (new & E). by rewrite E.
    + unfold handleUpdate. by rewrite Hd.
  - destruct (SmartAppRequest.eventData request) as [ed |] eqn:Hd.
    + destruct (handleEvent_effect env request ed w Hd) as (h1 & Hh1 & w' & E & X).
      rewrite E. simpl.
      destruct Hh1 as [-> | (app & token & _ & _ & ->)];
        refine (Hext _ _ _ _ _ X); done.
    + unfold handleEvent. by rewrite Hd.
  - by rewrite handleUninstall_exact.
Qed.

(** X9. No sequence of lifecycle messages ever removes a device from the
    registration or reorders it (lifecycle DELETE items included): the
    registration before is a prefix of the registration after.  The
    registered event and lifecycle consumers are never changed by
    messages. *)
Theorem registration_never_shrinks (msgs : list (Env * SmartAppRequest.t)) (w : World) :
  let h' := handler (handle_all msgs w) in
  deviceIds (handler w) `prefix_of` deviceIds h'
  /\ eventHandlers h' = eventHandlers (handler w)
  /\ deviceLifecycleHandlers h' = deviceLifecycleHandlers (handler w).
Proof.
  revert w. induction msgs as [| [env request] msgs IH]; intros w; simpl.
  - done.
  - destruct (IH (snd (handleRequest env request w))) as (Hp & He & Hl).
    destruct (handleRequest_registration env request w) as (Hp1 & He1 & Hl1).
    split; [by etrans | split; congruence].
Qed.

(** A lifecycle DELETE for a registered device leaves it registered. *)
Example delete_item_run :
  deviceIds (handler (snd (handleRequest Sample.friendly
    (Sample.event (Some "token-2") (Some (InstalledApp.mk "app-1" "loc-1"))
       [SmartThingsEvent.mk "DEVICE_LIFECYCLE_EVENT" None
          (Some (DeviceLifecycleEvent.mk "DELETE" "d1" None))])
    (Sample.world (Sample.installed ["d1"; "d2"])))))
  = ["d1"; "d2"].
Proof. vm_compute. reflexivity. Qed.

(** [handleEvent] with its payload: the credentials are adopted first, and
    everything after that only extends the world. *)
Lemma handleEvent_adopts (env : Env) request eventData w :
  SmartAppRequest.eventData request = Some eventData ->
  exists w',
    handleEvent env request w = (Returned (mkResponse 200 EventDataOut), w')
    /\ extends (mkWorld (adopt_credentials eventData (handler w)) (disk w) (trace w)) w'.
Proof.
  intros Hd. unfold handleEvent, adopt_credentials. rewrite Hd.
  unfold bind at 1, this at 1.
  assert (Htail : forall (pre : M unit) w1,
    benign pre ->
    exists w',
      bind pre (fun _ =>
        bind (for_each (EventData.events eventData) (process_event env))
             (fun _ => ret (mkResponse 200 EventDataOut))) w1
      = (Returned (mkResponse 200 EventDataOut), w')
      /\ extends w1 w').
  { intros pre w1 Hpre.
    destruct (Hpre w1) as ([] & w2 & E2 & X2).
    assert (Hloop : benign (for_each (EventData.events eventData) (process_event env)))
      by walk.
    destruct (Hloop w2) as ([] & w3 & E3 & X3).
    exists w3. unfold bind. rewrite E2, E3. eauto using extends_trans. }
  destruct (truthy (EventData.authToken eventData));
    [| rewrite world_eta; apply Htail; walk].
  destruct (EventData.installedApp eventData) as [app |];
    [| rewrite world_eta; apply Htail; walk].
  match goal with
  | |- context [bind (bind (update ?f) ?k1) ?k2 w] =>
      change (bind (bind (update f) k1) k2 w)
        with (bind (k1 tt) k2 (mkWorld (f (handler w)) (disk w) (trace w)))
  end.
  apply Htail. walk.
Qed.

(** X10. An EVENT never changes the refresh token.  When its payload carries
    a non-empty token and an installed app, the installed-app id, the token
    and the location id are replaced by those of the payload; when the token
    is missing or empty, or the installed app is missing, all four
    credentials stay as they were. *)
Theorem event_credentials
    (env : Env) (request : SmartAppRequest.t) (eventData : EventData.t) (w : World) :
  SmartAppRequest.lifecycle request = "EVENT" ->
  SmartAppRequest.eventData request = Some eventData ->
  let h := handler w in
  let h' := handler (snd (handleRequest env request w)) in
  refreshToken h' = refreshToken h
  /\ (forall app token,
        EventData.authToken eventData = Some token -> token <> "" ->
        EventData.installedApp eventData = Some app ->
        installedAppId h' = Some (InstalledApp.installedAppId app)
        /\ authToken h' = Some token
        /\ locationId h' = Some (InstalledApp.locationId app))
  /\ (truthy (EventData.authToken eventData) = false
      \/ EventData.installedApp eventData = None ->
      installedAppId h' = installedAppId h
      /\ authToken h' = authToken h
      /\ locationId h' = locationId h).
Proof.
  intros Hl Hd h h'. subst h h'.
  assert (E0 : handleRequest env request w = handleEvent env request w).
  { unfold handleRequest. by rewrite Hl. }
  rewrite E0. clear E0.
  destruct (handleEvent_adopts env request eventData w Hd) as (w' & E & X).
  rewrite E. simpl.
  destruct (extends_credentials _ _ X) as (Ha & Ht & Hr & Hloc & _).
  simpl in Ha, Ht, Hr, Hloc. rewrite Ha, Ht, Hr, Hloc. clear Ha Ht Hr Hloc X E.
  unfold adopt_credentials. split; [| split].
  - destruct (truthy _); [| done]. by destruct (EventData.installedApp eventData).
  - intros app token Htok Hne Happ. rewrite Htok, Happ. simpl.
    apply truthy_string_true in Hne. by rewrite Hne.
  - intros [-> | ->]; [done |]. by destruct (truthy _).
Qed.

Lemma event_credentials_witness :
  let w := Sample.world (Sample.installed ["d1"]) in
  authToken (handler (snd (handleRequest Sample.friendly Sample.eventMessage w)))
  = Some "token-2"
  /\ authToken (handler (snd (handleRequest Sample.friendly
                                (Sample.event (Some "") (Some (InstalledApp.mk "app-2" "loc-2")) [])
                                w)))
     = Some "token-1".
Proof.
  intros w. split.
  - refine (proj1 (proj2 (proj1 (proj2 (event_credentials Sample.friendly Sample.eventMessage
              (EventData.mk (Some "token-2") (Some (InstalledApp.mk "app-1" "loc-1"))
                 Sample.items) w eq_refl eq_refl))
              (InstalledApp.mk "app-1" "loc-1") "token-2" eq_refl _ eq_refl))).
    discriminate.
  - refine (proj1 (proj2 (proj2 (proj2 (event_credentials Sample.friendly
              (Sample.event (Some "") (Some (InstalledApp.mk "app-2" "loc-2")) [])
              (EventData.mk (Some "") (Some (InstalledApp.mk "app-2" "loc-2")) [])
              w eq_refl eq_refl)) _))).
    left. reflexivity.
Defined.

(** ** Credentials across a restart *)

(** X11. After an INSTALL on a writable disk, a restart restores from the
    file every credential of the payload that is not the empty string; an
    empty one comes back as absent.  The registration and the consumers are
    not persisted: the restarted handler has none.  When the disk is not
    writable the file, and so the restarted handler, is the same as without
    the INSTALL. *)
Theorem install_survives_restart
    (env : Env) (request : SmartAppRequest.t) (data : InstallData.t) (w : World) :
  SmartAppRequest.lifecycle request = "INSTALL" ->
  SmartAppRequest.installData request = Some data ->
  let w' := snd (handleRequest env request w) in
  let h' := handler (restart w') in
  (disk_writable env = true ->
   installedAppId h'
   = or_null (Some (InstalledApp.installedAppId (InstallData.installedApp data)))
   /\ authToken h' = or_null (Some (InstallData.authToken data))
   /\ refreshToken h' = or_null (Some (InstallData.refreshToken data))
   /\ locationId h'
      = or_null (Some (InstalledApp.locationId (InstallData.installedApp data)))
   /\ deviceIds h' = []
   /\ eventHandlers h' = []
   /\ deviceLifecycleHandlers h' = [])
  /\ (disk_writable env = false -> restart w' = restart w).
Proof.
  intros Hl Hd w' h'. subst h' w'.
  unfold handleRequest. rewrite Hl. simpl.
  destruct (handleInstall_exact env request data w Hd) as (new & E). rewrite E.
  split; intros Hw; rewrite Hw; by unfold restart.
Qed.

Lemma install_survives_restart_witness :
  let w' := snd (handleRequest Sample.friendly
                   (Sample.install "app-1" "token-1" "" "loc-1")
                   (Sample.world (with_deviceIds ["d1"] initial_handler))) in
  authToken (handler (restart w')) = Some "token-1"
  /\ refreshToken (handler (restart w')) = None
  /\ deviceIds (handler (restart w')) = [].
Proof.
  intros w'.
  pose proof (proj1 (install_survives_restart Sample.friendly
                       (Sample.install "app-1" "token-1" "" "loc-1")
                       (InstallData.mk "token-1" "" (InstalledApp.mk "app-1" "loc-1"))
                       (Sample.world (with_deviceIds ["d1"] initial_handler))
                       eq_refl eq_refl) eq_refl) as H.
  split; [exact (proj1 (proj2 H)) |].
  split; [exact (proj1 (proj2 (proj2 H))) |].
  exact (proj1 (proj2 (proj2 (proj2 (proj2 H))))).
Defined.

(** ** The remote list *)

Lemma subscribedDeviceIds_fold items (acc : gset string) id :
  id ∈ fold_left
         (fun (acc : gset string) sub =>
            match RemoteSubscription.device sub with
            | Some id =>
                if String.eqb (RemoteSubscription.sourceType sub) "DEVICE"
                   && truthy_string id
                then {[ id ]} ∪ acc
                else acc
            | None => acc
            end)
         items acc
  <-> id ∈ acc \/ (id <> "" /\ RemoteSubscription.mk "DEVICE" (Some id) ∈ items).
Proof.
  revert acc. induction items as [| [st dev] items IH]; intros acc; simpl.
  - split; [by left | intros [H | [_ H]]; [done | by apply elem_of_nil in H]].
  - rewrite IH. clear IH. rewrite elem_of_cons.
    destruct dev as [d |]; simpl.
    + destruct (String.eqb_spec st "DEVICE") as [-> | Hst]; simpl.
      * destruct (truthy_string d) eqn:Hd.
        -- apply truthy_string_true in Hd. rewrite elem_of_union, elem_of_singleton.
           split.
           ++ intros [[-> | H] | [Hne H]]; [right | by left | right]; split; auto.
           ++ intros [H | [Hne [H | H]]]; [left; by right | | right; by split].
              inversion H; subst d. left. by left.
        -- assert (d = "") as ->.
           { unfold truthy_string in Hd. destruct (String.eqb_spec d ""); [done | discriminate]. }
           split.
           ++ intros [H | [Hne H]]; [by left | right; split; auto].
           ++ intros [H | [Hne [H | H]]]; [by left | | right; by split].
              inversion H. congruence.
      * split.
        -- intros [H | [Hne H]]; [by left | right; split; auto].
        -- intros [H | [Hne [H | H]]]; [by left | | right; by split].
           inversion H. congruence.
    + split.
      * intros [H | [Hne H]]; [by left | right; split; auto].
      * intros [H | [Hne [H | H]]]; [by left | | right; by split].
        inversion H.
Qed.

Lemma subscribedDeviceIds_spec (items : list RemoteSubscription.t) (id : string) :
  id ∈ subscribedDeviceIds items
  <-> id <> "" /\ RemoteSubscription.mk "DEVICE" (Some id) ∈ items.
Proof.
  unfold subscribedDeviceIds. rewrite subscribedDeviceIds_fold.
  split; [intros [H | H]; [set_solver | done] | by right].
Qed.

(** X12. [getExistingSubscriptions] never throws.  Without credentials it
    makes no call and returns the empty set.  With credentials it makes the
    one list call; when that call fails the result is the empty set, and
    otherwise it holds exactly the non-empty device ids of the listed items
    whose source type is DEVICE: lifecycle and capability subscriptions,
    items without a device, and empty ids are left out. *)
Theorem existing_subscriptions_are_device_ids (env : Env) (w : World) :
  let h := handler w in
  let t := trace w ++ [GetSubscriptions (installedAppId h) (authToken h)] in
  (missing_credentials h = true ->
   getExistingSubscriptions env w = (Returned ∅, w))
  /\ (missing_credentials h = false ->
      exists R,
        getExistingSubscriptions env w = (Returned R, mkWorld h (disk w) t)
        /\ match list_reply env t with
           | Some items =>
               forall id, id ∈ R
                          <-> id <> "" /\ RemoteSubscription.mk "DEVICE" (Some id) ∈ items
           | None => R = ∅
           end).
Proof.
  intros h t. subst h t.
  split; intros Hc; unfold getExistingSubscriptions, bind at 1, this at 1;
    rewrite Hc; [done |].
  unfold try_catch, bind, emit, ret, throw. simpl.
  destruct (list_reply env _) as [items |]; eexists; (split; [reflexivity |]).
  - apply subscribedDeviceIds_spec.
  - done.
Qed.

Lemma existing_subscriptions_are_device_ids_witness :
  getExistingSubscriptions Sample.friendly (construct None) = (Returned ∅, construct None)
  /\ exists R,
       fst (getExistingSubscriptions
              (mkEnv (fun _ => Some [RemoteSubscription.mk "DEVICE" (Some "d2");
                                     RemoteSubscription.mk "DEVICE_LIFECYCLE" None;
                                     RemoteSubscription.mk "CAPABILITY" (Some "d5")])
                     (fun _ => Resolved) (fun _ => Resolved) (fun _ => Resolved) true 0)
              (Sample.world (Sample.installed ["d1"])))
       = Returned R.
Proof.
  split.
  - exact (proj1 (existing_subscriptions_are_device_ids Sample.friendly (construct None))
                 eq_refl).
  - destruct (proj2 (existing_subscriptions_are_device_ids
                       (mkEnv (fun _ => Some [RemoteSubscription.mk "DEVICE" (Some "d2");
                                              RemoteSubscription.mk "DEVICE_LIFECYCLE" None;
                                              RemoteSubscription.mk "CAPABILITY" (Some "d5")])
                              (fun _ => Resolved) (fun _ => Resolved) (fun _ => Resolved)
                              true 0)
                       (Sample.world (Sample.installed ["d1"]))) eq_refl)
      as (R & E & _).
    exists R. by rewrite E.
Defined.

(** A list with one subscription of each source type: only the DEVICE one
    counts. *)
Example existing_subscriptions_run :
  subscribedDeviceIds [RemoteSubscription.mk "DEVICE" (Some "d2");
                       RemoteSubscription.mk "DEVICE_LIFECYCLE" None;
                       RemoteSubscription.mk "CAPABILITY" (Some "d5");
                       RemoteSubscription.mk "DEVICE" (Some "")]
  = ({[ "d2" ]} : gset string).
Proof. vm_compute. reflexivity. Qed.

(** ** The webhook server *)

Section ServerProperties.

Variable JSON_parse : string -> option SmartAppRequest.t.
Variable JSON_parse_event : string -> option ShortEvent.t.
Variable env : Env.
Variable oauth_throws : bool.

(** The lifecycle endpoint keeps the mode of the server: a handler stays a
    handler, and none stays none. *)
Lemma handleSmartAppRequest_keeps_handler body s :
  is_Some (smartAppHandler (snd (handleSmartAppRequest JSON_parse env body s)))
  <-> is_Some (smartAppHandler s).
Proof.
  unfold handleSmartAppRequest.
  destruct (smartAppHandler s) as [h |] eqn:Hh; [| simpl; by rewrite Hh].
  destruct (JSON_parse body) as [request |]; [| simpl; by rewrite Hh].
  destruct (appId_rejected _ _); [simpl; by rewrite Hh |].
  destruct (handleRequest env request _) as [[r | e] w]; simpl;
    split; intros _; by eexists.
Qed.

Lemma listener_keeps_mode pathname method body s :
  let s' := snd (Server.listener JSON_parse JSON_parse_event env oauth_throws
                   pathname method body s) in
  Server.useDirectWebhook s' = Server.useDirectWebhook s
  /\ (is_Some (Server.getSmartAppHandler s') <-> is_Some (Server.getSmartAppHandler s)).
Proof.
  unfold Server.listener, Server.getSmartAppHandler.
  destruct (Server.route s pathname method); simpl; try done.
  - destruct (Server.authHandler s); [| done].
    unfold Server.handleOAuthCallback. by destruct (_ || _).
  - pose proof (handleSmartAppRequest_keeps_handler body (Server.lifecycle s)) as H.
    by destruct (handleSmartAppRequest JSON_parse env body (Server.lifecycle s)).
  - unfold Server.handleDeviceEvent. by destruct (JSON_parse_event body).
Qed.

Lemma serve_keeps_mode requests s :
  let s' := snd (Server.serve JSON_parse JSON_parse_event env oauth_throws requests s) in
  Server.useDirectWebhook s' = Server.useDirectWebhook s
  /\ (is_Some (Server.getSmartAppHandler s') <-> is_Some (Server.getSmartAppHandler s)).
Proof.
  revert s. induction requests as [| [[pathname method] body] requests IH]; intros s.
  - done.
  - simpl.
    pose proof (listener_keeps_mode pathname method body s) as H1.
    destruct (Server.listener _ _ _ _ pathname method body s) as [r s1]. simpl in H1.
    specialize (IH s1).
    destruct (Server.serve _ _ _ _ requests s1) as [rs s2]. simpl in *.
    destruct H1 as [H1 H1'], IH as [H2 H2']. split; [congruence | tauto].
Qed.

End ServerProperties.

(** X13. Application-id validation at the lifecycle endpoint.  On a server
    that owns a handler and has a non-empty [smartapp_id] configured, a
    parsed message whose [appId] is missing or different is answered 403 and
    never reaches the handler: server, credentials, file and trace are
    unchanged.  A message with the configured [appId], or any message when no
    id (or an empty one) is configured, is handed to [handleRequest] and
    answered with its status code. *)
Theorem appId_is_validated
    (JSON_parse : string -> option SmartAppRequest.t) (env : Env)
    (body : string) (request : SmartAppRequest.t) (h : SmartAppHandler)
    (s : WebhookServer) :
  JSON_parse body = Some request ->
  smartAppHandler s = Some h ->
  let answer := handleSmartAppRequest JSON_parse env body s in
  let handled := handleRequest env request (mkWorld h (server_disk s) (server_trace s)) in
  (forall configured,
     smartapp_id s = Some configured -> configured <> "" ->
     SmartAppRequest.appId request <> Some configured ->
     answer = (mkHttp 403 (ErrorBody "Invalid"), s))
  /\ (truthy (smartapp_id s) = false
      \/ SmartAppRequest.appId request = smartapp_id s ->
      exists r,
        fst handled = Returned r
        /\ fst answer = mkHttp (statusCode r) (LifecycleBody r)
        /\ snd answer = mkServer (Some (handler (snd handled))) (smartapp_id s)
                                 (disk (snd handled)) (trace (snd handled))).
Proof.
  intros Hp Hh answer handled. subst answer handled.
  unfold handleSmartAppRequest. rewrite Hh, Hp. split.
  - intros configured Hc Hne Hdiff. unfold appId_rejected. rewrite Hc. simpl.
    apply truthy_string_true in Hne. rewrite Hne. simpl.
    by rewrite bool_decide_false.
  - intros Hok.
    assert (Hacc : appId_rejected (smartapp_id s) request = false).
    { unfold appId_rejected. destruct Hok as [-> | ->]; [done |].
      rewrite bool_decide_true by done. apply andb_false_r. }
    rewrite Hacc.
    destruct (handleRequest_answer env request
                (mkWorld h (server_disk s) (server_trace s))) as (r & w' & E & Hst).
    rewrite E. simpl. exists r. split; [done |]. split; [| done].
    unfold status_or_200.
    destruct Hst as [-> | [[-> _] | [-> _]]]; done.
Qed.

Lemma appId_is_validated_witness :
  let parse_install (_ : string) :=
    Some (Sample.install "app-1" "token-1" "refresh-1" "loc-1") in
  let s := mkServer (Some initial_handler) (Some "my-smartapp") None [] in
  handleSmartAppRequest parse_install Sample.friendly "{}" s
  = (mkHttp 403 (ErrorBody "Invalid"), s)
  /\ exists r,
       fst (handleSmartAppRequest parse_install Sample.friendly "{}"
              (Sample.server (Some initial_handler)))
       = mkHttp (statusCode r) (LifecycleBody r).
Proof.
  intros parse_install s. split.
  - refine (proj1 (appId_is_validated parse_install Sample.friendly "{}"
                     (Sample.install "app-1" "token-1" "refresh-1" "loc-1")
                     initial_handler s eq_refl eq_refl)
                  "my-smartapp" eq_refl _ _); simpl; discriminate.
  - destruct (proj2 (appId_is_validated parse_install Sample.friendly "{}"
                       (Sample.install "app-1" "token-1" "refresh-1" "loc-1")
                       initial_handler (Sample.server (Some initial_handler))
                       eq_refl eq_refl) (or_introl eq_refl)) as (r & _ & E & _).
    exists r. exact E.
Defined.

Lemma server_eta (s : Server.t) :
  Server.mk (Server.useDirectWebhook s) (Server.authHandler s)
            (Server.eventHandlers s) (Server.lifecycle s) = s.
Proof. by destruct s. Qed.

(** X14. The mode chosen at construction decides who serves a POST to "/"
    for the whole life of the server.  Unless [use_direct_webhook] is a
    literal [false], after any requests the server still owns its SmartApp
    handler, a POST to "/" goes to the lifecycle endpoint like "/smartapp",
    and an unparsable body there is answered 400 with the server unchanged.
    With [use_direct_webhook = false] the server never owns a handler, a POST
    to "/" goes to the legacy event endpoint, and "/smartapp" answers 500. *)
Theorem mode_decides_routing
    (JSON_parse : string -> option SmartAppRequest.t)
    (JSON_parse_event : string -> option ShortEvent.t)
    (env : Env) (oauth_throws : bool)
    (use_direct_webhook : option bool) (configured_app : option string)
    (d : option CredentialsFile) (requests : list (string * string * string))
    (body : string) :
  let s := snd (Server.serve JSON_parse JSON_parse_event env oauth_throws requests
                  (Server.create use_direct_webhook configured_app d)) in
  let listen := Server.listener JSON_parse JSON_parse_event env oauth_throws in
  (use_direct_webhook <> Some false ->
   is_Some (Server.getSmartAppHandler s)
   /\ Server.route s "/" "POST" = Server.ToSmartApp
   /\ (JSON_parse body = None ->
       listen "/" "POST" body s
       = (Server.Json (mkHttp 400 (ErrorBody "Invalid request body")), s)
       /\ listen "/smartapp" "POST" body s
          = (Server.Json (mkHttp 400 (ErrorBody "Invalid request body")), s)))
  /\ (use_direct_webhook = Some false ->
      Server.getSmartAppHandler s = None
      /\ Server.route s "/" "POST" = Server.ToDeviceEvent
      /\ listen "/smartapp" "POST" body s
         = (Server.Json (mkHttp 500 (ErrorBody "SmartApp handler not initialized")), s)).
Proof.
  intros s listen.
  pose proof (serve_keeps_mode JSON_parse JSON_parse_event env oauth_throws requests
                (Server.create use_direct_webhook configured_app d)) as [Hm Hh].
  fold s in Hm, Hh. split.
  - intros Hcfg.
    assert (Hd : Server.useDirectWebhook s = true).
    { rewrite Hm. simpl. by rewrite bool_decide_false. }
    assert (Hs : is_Some (Server.getSmartAppHandler s)).
    { apply Hh. unfold Server.getSmartAppHandler. simpl.
      rewrite bool_decide_false by done. by eexists. }
    assert (Hroute : Server.route s "/" "POST" = Server.ToSmartApp)
      by (unfold Server.route; by rewrite Hd).
    split; [exact Hs |]. split; [exact Hroute |].
    intros Hp. destruct Hs as [h Hs]. unfold Server.getSmartAppHandler in Hs.
    subst listen. unfold Server.listener. rewrite Hroute.
    change (Server.route s "/smartapp" "POST") with Server.ToSmartApp. cbv iota.
    unfold handleSmartAppRequest. rewrite Hs, Hp. by rewrite server_eta.
  - intros Hcfg.
    assert (Hd : Server.useDirectWebhook s = false).
    { rewrite Hm. simpl. by rewrite Hcfg. }
    assert (Hs : Server.getSmartAppHandler s = None).
    { destruct (Server.getSmartAppHandler s) as [h |] eqn:E; [| done].
      assert (Hsome : is_Some (Some h)) by (by eexists).
      apply Hh in Hsome. unfold Server.getSmartAppHandler in Hsome. simpl in Hsome.
      rewrite Hcfg in Hsome. simpl in Hsome. by destruct Hsome. }
    split; [exact Hs |]. split; [unfold Server.route; by rewrite Hd |].
    subst listen. unfold Server.listener.
    change (Server.route s "/smartapp" "POST") with Server.ToSmartApp. cbv iota.
    unfold Server.getSmartAppHandler in Hs.
    unfold handleSmartAppRequest. rewrite Hs. by rewrite server_eta.
Qed.

Lemma mode_decides_routing_witness :
  Server.route (Server.create None None None) "/" "POST" = Server.ToSmartApp
  /\ Server.route (Server.create (Some false) None None) "/" "POST" = Server.ToDeviceEvent.
Proof.
  split.
  - refine (proj1 (proj2 (proj1 (mode_decides_routing Sample.parse_nothing (fun _ => None)
              Sample.friendly false None None None [] "") _))).
    discriminate.
  - exact (proj1 (proj2 (proj2 (mode_decides_routing Sample.parse_nothing (fun _ => None)
              Sample.friendly false (Some false) None None [] "") eq_refl))).
Defined.

(** X15. The legacy event endpoint.  On a server with direct webhooks
    switched off, a POST to "/" whose body parses as an event is answered 200
    after every handler registered with the server has been called exactly
    once with that event, in registration order; a body that does not parse
    is answered 400 and no handler is called.  In neither case is the
    lifecycle part of the server (handler, credentials, file) touched. *)
Theorem legacy_event_is_dispatched
    (JSON_parse : string -> option SmartAppRequest.t)
    (JSON_parse_event : string -> option ShortEvent.t)
    (env : Env) (oauth_throws : bool) (body : string) (s : Server.t) :
  Server.useDirectWebhook s = false ->
  let answer := Server.listener JSON_parse JSON_parse_event env oauth_throws
                  "/" "POST" body s in
  let s' := snd answer in
  smartAppHandler (Server.lifecycle s') = smartAppHandler (Server.lifecycle s)
  /\ server_disk (Server.lifecycle s') = server_disk (Server.lifecycle s)
  /\ Server.eventHandlers s' = Server.eventHandlers s
  /\ (forall event,
        JSON_parse_event body = Some event ->
        fst answer = Server.Bare 200
        /\ server_trace (Server.lifecycle s')
           = server_trace (Server.lifecycle s)
             ++ map (fun k => EventHandlerCalled k event) (Server.eventHandlers s))
  /\ (JSON_parse_event body = None -> answer = (Server.Bare 400, s)).
Proof.
  intros Hmode answer s'. subst s' answer.
  unfold Server.listener, Server.route. rewrite Hmode. simpl.
  unfold Server.handleDeviceEvent.
  destruct (JSON_parse_event body) as [event |]; simpl.
  - do 3 (split; [done |]). split; [| done]. intros ev Hev. by inversion Hev.
  - do 3 (split; [done |]). split; [done | done].
Qed.

Lemma legacy_event_is_dispatched_witness :
  let event := ShortEvent.mk "d1" (JsString "on") "main" "switch" "switch" in
  let s := Server.addEventHandler 7 (Server.addEventHandler 3
             (Server.create (Some false) None None)) in
  server_trace (Server.lifecycle
                  (snd (Server.listener Sample.parse_nothing (fun _ => Some event)
                          Sample.friendly false "/" "POST" "{}" s)))
  = [EventHandlerCalled 3 event; EventHandlerCalled 7 event]
  /\ Server.listener Sample.parse_nothing (fun _ => None) Sample.friendly false
       "/" "POST" "{" s
     = (Server.Bare 400, s).
Proof.
  intros event s. split.
  - exact (proj2 (proj1 (proj2 (proj2 (proj2 (legacy_event_is_dispatched
             Sample.parse_nothing (fun _ => Some event) Sample.friendly false "{}" s
             eq_refl)))) event eq_refl)).
  - exact (proj2 (proj2 (proj2 (proj2 (legacy_event_is_dispatched
             Sample.parse_nothing (fun _ => None) Sample.friendly false "{" s
             eq_refl)))) eq_refl).
Defined.

(** X16. Every response of the request listener that the server writes
    itself has status 200, 400, 403, 404 or 500; only a callback handed to a
    registered OAuth collaborator is answered by someone else.  The health
    probe (GET "/" or any request to "/health"), the OAuth callback and
    unknown paths never change the server. *)
Theorem listener_statuses
    (JSON_parse : string -> option SmartAppRequest.t)
    (JSON_parse_event : string -> option ShortEvent.t)
    (env : Env) (oauth_throws : bool)
    (pathname method body : string) (s : Server.t) :
  let answer := Server.listener JSON_parse JSON_parse_event env oauth_throws
                  pathname method body s in
  match Server.reply_status (fst answer) with
  | Some st => st ∈ [200; 400; 403; 404; 500]
  | None => pathname = "/oauth/callback" /\ Server.authHandler s = true
  end
  /\ match Server.route s pathname method with
     | Server.ToHealth => answer = (Server.Health (Server.useDirectWebhook s), s)
     | Server.ToNotFound => answer = (Server.Bare 404, s)
     | Server.ToOAuthCallback => snd answer = s
     | _ => True
     end.
Proof.
  intros answer. subst answer. unfold Server.listener.
  destruct (Server.route s pathname method) eqn:Hr; simpl.
  - assert (Hp : pathname = "/oauth/callback").
    { unfold Server.route in Hr.
      destruct (String.eqb_spec pathname "/oauth/callback"); [done |].
      repeat (destruct (_ || _) || destruct (_ && _)); discriminate. }
    destruct (Server.authHandler s) eqn:Ha; simpl; [| split; [set_solver | done]].
    unfold Server.handleOAuthCallback. rewrite Ha. simpl.
    destruct oauth_throws; simpl; [split; [set_solver | done] | done].
  - split; [| done].
    unfold handleSmartAppRequest.
    destruct (smartAppHandler (Server.lifecycle s)) as [h |]; simpl; [| set_solver].
    destruct (JSON_parse body) as [request |]; simpl; [| set_solver].
    destruct (appId_rejected _ _); simpl; [set_solver |].
    destruct (handleRequest_answer env request
                (mkWorld h (server_disk (Server.lifecycle s))
                   (server_trace (Server.lifecycle s)))) as (r & w' & E & Hst).
    rewrite E. simpl. unfold status_or_200.
    destruct Hst as [-> | [[-> _] | [-> _]]]; simpl; set_solver.
  - split; [| done]. unfold Server.handleDeviceEvent.
    destruct (JSON_parse_event body); simpl; set_solver.
  - split; [set_solver | done].
  - split; [set_solver | done].
Qed.

(** ** More on the crash-loop manager *)

Section CrashMore.

Import CrashLoopManager.

Lemma filter_length_mono {A} (p q : A -> bool) (l : list A) :
  (forall x, p x = true -> q x = true) ->
  (length (List.filter p l) <= length (List.filter q l))%nat.
Proof.
  intros H. induction l as [| x l IH]; simpl; [done |].
  destruct (p x) eqn:Hp.
  - rewrite (H x Hp). simpl. lia.
  - destruct (q x); simpl; lia.
Qed.

Lemma recentRelevant_wider config config' now crash :
  timeWindowMinutes config <= timeWindowMinutes config' ->
  relevantErrorTypes config' = relevantErrorTypes config ->
  recentRelevant config now crash = true -> recentRelevant config' now crash = true.
Proof.
  unfold recentRelevant. intros Hw ->. rewrite !andb_true_iff, !Z.leb_le.
  intros [H1 H2]. split; [lia | done].
Qed.

Lemma strongly_sorted_drop {A} (R : A -> A -> Prop) n (l : list A) :
  StronglySorted R l -> StronglySorted R (drop n l).
Proof.
  intros H. revert n. induction H as [| x l Hs IH Hx]; intros [| n]; simpl;
    try constructor; auto.
Qed.

End CrashMore.

(** X17. [resetCrashState] empties the log when the write goes through, and
    from then on no configuration detects a loop, whatever its threshold; when
    the write fails the file is left as it was. *)
Theorem reset_clears_detection
    (io : CrashLoopManager.Io) (f : CrashLoopManager.CrashLogFile) :
  (CrashLoopManager.write_ok io = true ->
   CrashLoopManager.stored (CrashLoopManager.resetCrashState io f) = []
   /\ forall io' config,
        CrashLoopManager.isCrashLoopDetected io' config
          (CrashLoopManager.resetCrashState io f) = false)
  /\ (CrashLoopManager.write_ok io = false ->
      CrashLoopManager.resetCrashState io f = f).
Proof.
  unfold CrashLoopManager.resetCrashState, CrashLoopManager.writeCrashLog.
  split; intros ->; [| done]. simpl. split; [done |].
  intros io' config. unfold CrashLoopManager.isCrashLoopDetected,
    CrashLoopManager.readCrashLog. by destruct (CrashLoopManager.read_ok io').
Qed.

Lemma reset_clears_detection_witness :
  CrashLoopManager.isCrashLoopDetected CrashLoopManager.at_noon
    (CrashLoopManager.mkConfig 0 15 [])
    (CrashLoopManager.resetCrashState CrashLoopManager.at_noon
       (CrashLoopManager.minutes_ago 1700000000000 [3; 2; 1; 0]))
  = false
  /\ CrashLoopManager.resetCrashState (CrashLoopManager.mkIo true false 0)
       (CrashLoopManager.minutes_ago 1700000000000 [3; 2; 1; 0])
     = CrashLoopManager.minutes_ago 1700000000000 [3; 2; 1; 0].
Proof.
  split.
  - exact (proj2 (proj1 (reset_clears_detection CrashLoopManager.at_noon
                           (CrashLoopManager.minutes_ago 1700000000000 [3; 2; 1; 0]))
                        eq_refl)
                 CrashLoopManager.at_noon (CrashLoopManager.mkConfig 0 15 [])).
  - exact (proj2 (reset_clears_detection (CrashLoopManager.mkIo true false 0)
                    (CrashLoopManager.minutes_ago 1700000000000 [3; 2; 1; 0]))
                 eq_refl).
Defined.

(** X18. Storage that cannot be read counts as an empty log.  Detection then
    answers false whatever the file holds; and a record whose read fails but
    whose write works replaces the whole log by the one new entry, so the
    earlier entries are lost.  A file that is not an array is treated the
    same way. *)
Theorem unreadable_log_is_empty
    (io : CrashLoopManager.Io) (f : CrashLoopManager.CrashLogFile) :
  (CrashLoopManager.read_ok io = false \/ f = CrashLoopManager.Content None ->
   (forall config, CrashLoopManager.isCrashLoopDetected io config f = false)
   /\ (forall kind,
         CrashLoopManager.write_ok io = true ->
         CrashLoopManager.recordPotentialCrash io kind f
         = CrashLoopManager.Content
             (Some [CrashLoopManager.mkCrash (CrashLoopManager.date_now io) kind]))).
Proof.
  intros Hbad.
  assert (Hread : CrashLoopManager.readCrashLog io f = []).
  { unfold CrashLoopManager.readCrashLog. destruct Hbad as [-> | ->]; [done |].
    by destruct (CrashLoopManager.read_ok io). }
  split.
  - intros config. unfold CrashLoopManager.isCrashLoopDetected. by rewrite Hread.
  - intros kind Hw. unfold CrashLoopManager.recordPotentialCrash,
      CrashLoopManager.writeCrashLog. by rewrite Hread, Hw.
Qed.

Lemma unreadable_log_is_empty_witness :
  CrashLoopManager.isCrashLoopDetected (CrashLoopManager.mkIo false true 1700000000000)
    CrashLoopManager.defaultCrashLoopConfig
    (CrashLoopManager.minutes_ago 1700000000000 [4; 3; 2; 1; 0])
  = false.
Proof.
  exact (proj1 (unreadable_log_is_empty (CrashLoopManager.mkIo false true 1700000000000)
                  (CrashLoopManager.minutes_ago 1700000000000 [4; 3; 2; 1; 0])
                  (or_introl eq_refl))
               CrashLoopManager.defaultCrashLoopConfig).
Defined.

(** X19. Detection is monotone in the configuration: a loop detected under a
    configuration is also detected under any configuration with the same
    relevant kinds, a threshold that is not higher and a window that is not
    shorter. *)
Theorem detection_is_monotone
    (io : CrashLoopManager.Io) (config config' : CrashLoopManager.CrashLoopConfig)
    (f : CrashLoopManager.CrashLogFile) :
  CrashLoopManager.relevantErrorTypes config' = CrashLoopManager.relevantErrorTypes config ->
  CrashLoopManager.maxCrashes config' <= CrashLoopManager.maxCrashes config ->
  CrashLoopManager.timeWindowMinutes config
  <= CrashLoopManager.timeWindowMinutes config' ->
  CrashLoopManager.isCrashLoopDetected io config f = true ->
  CrashLoopManager.isCrashLoopDetected io config' f = true.
Proof.
  intros Hk Hm Hw. unfold CrashLoopManager.isCrashLoopDetected.
  destruct (Nat.eqb _ 0); [done |].
  rewrite !Z.geb_le. intros H.
  pose proof (filter_length_mono
                (CrashLoopManager.recentRelevant config (CrashLoopManager.date_now io))
                (CrashLoopManager.recentRelevant config' (CrashLoopManager.date_now io))
                (CrashLoopManager.readCrashLog io f)
                (fun x => recentRelevant_wider config config' _ x Hw Hk)) as Hlen.
  lia.
Qed.

Lemma detection_is_monotone_witness :
  CrashLoopManager.isCrashLoopDetected CrashLoopManager.at_noon
    (CrashLoopManager.mkConfig 3 60
       ["API_INIT_FAILURE"; "DEVICE_HEALTH_FAILURE"; "TOKEN_REFRESH_FAILURE"])
    (CrashLoopManager.minutes_ago 1700000000000 [14; 3; 2; 1; 0])
  = true.
Proof.
  apply (detection_is_monotone CrashLoopManager.at_noon
           CrashLoopManager.defaultCrashLoopConfig
           (CrashLoopManager.mkConfig 3 60
              ["API_INIT_FAILURE"; "DEVICE_HEALTH_FAILURE"; "TOKEN_REFRESH_FAILURE"])
           (CrashLoopManager.minutes_ago 1700000000000 [14; 3; 2; 1; 0]));
    [reflexivity | simpl; lia | simpl; lia | reflexivity].
Defined.

(** X20. A threshold of one fires on the first relevant crash: right after a
    record of a relevant kind (or of any kind when no kind is named) with
    working storage, detection at a clock no later than the window after the
    record answers true, whatever the log held before. *)
Theorem record_then_detect
    (io io' : CrashLoopManager.Io) (config : CrashLoopManager.CrashLoopConfig)
    (kind : string) (f : CrashLoopManager.CrashLogFile) :
  CrashLoopManager.read_ok io = true ->
  CrashLoopManager.write_ok io = true ->
  CrashLoopManager.read_ok io' = true ->
  CrashLoopManager.maxCrashes config <= 1 ->
  CrashLoopManager.date_now io' - CrashLoopManager.date_now io
  <= CrashLoopManager.timeWindowMinutes config * 60 * 1000 ->
  CrashLoopManager.relevantErrorTypes config = []
  \/ kind ∈ CrashLoopManager.relevantErrorTypes config ->
  CrashLoopManager.isCrashLoopDetected io' config
    (CrashLoopManager.recordPotentialCrash io kind f) = true.
Proof.
  intros Hr Hw Hr' Hmax Hwin Hrel.
  set (entry := CrashLoopManager.mkCrash (CrashLoopManager.date_now io) kind).
  assert (Hq : CrashLoopManager.recentRelevant config (CrashLoopManager.date_now io') entry
               = true).
  { apply recentRelevant_spec. split; [exact Hwin | exact Hrel]. }
  assert (Hlog : CrashLoopManager.readCrashLog io'
                   (CrashLoopManager.recordPotentialCrash io kind f)
                 = CrashLoopManager.newest CrashLoopManager.MAX_LOG_ENTRIES
                     (CrashLoopManager.stored f ++ [entry])).
  { transitivity (CrashLoopManager.stored
                    (CrashLoopManager.recordPotentialCrash io kind f)).
    - unfold CrashLoopManager.stored, CrashLoopManager.readCrashLog. by rewrite Hr'.
    - by apply record_healthy. }
  assert (Hlast : exists l, CrashLoopManager.newest CrashLoopManager.MAX_LOG_ENTRIES
                              (CrashLoopManager.stored f ++ [entry]) = l ++ [entry]).
  { unfold CrashLoopManager.newest. rewrite length_app. simpl.
    exists (drop (length (CrashLoopManager.stored f) + 1 - CrashLoopManager.MAX_LOG_ENTRIES)
                 (CrashLoopManager.stored f)).
    rewrite drop_app_le; [done |]. unfold CrashLoopManager.MAX_LOG_ENTRIES. lia. }
  destruct Hlast as (l & Hl).
  unfold CrashLoopManager.isCrashLoopDetected. rewrite Hlog, Hl.
  rewrite length_app. simpl. replace (Nat.eqb (length l + 1) 0) with false
    by (symmetry; apply Nat.eqb_neq; lia).
  rewrite List.filter_app. simpl. rewrite Hq. rewrite length_app. simpl.
  apply Z.geb_le. lia.
Qed.

Lemma record_then_detect_witness :
  CrashLoopManager.isCrashLoopDetected CrashLoopManager.at_noon
    (CrashLoopManager.mkConfig 1 15 ["TOKEN_REFRESH_FAILURE"])
    (CrashLoopManager.recordPotentialCrash CrashLoopManager.at_noon "TOKEN_REFRESH_FAILURE"
       CrashLoopManager.Absent)
  = true.
Proof.
  apply (record_then_detect CrashLoopManager.at_noon CrashLoopManager.at_noon
           (CrashLoopManager.mkConfig 1 15 ["TOKEN_REFRESH_FAILURE"])
           "TOKEN_REFRESH_FAILURE" CrashLoopManager.Absent);
    try reflexivity; simpl; try lia.
  right. set_solver.
Defined.

(** X21. As long as the clock does not run backwards the log stays ordered
    by time: when the old entries followed by the entries of a run of records
    with working storage are in non-decreasing timestamp order, so is the log
    after the run. *)
Theorem crash_log_stays_ordered
    (calls : list (CrashLoopManager.Io * string)) (f : CrashLoopManager.CrashLogFile) :
  (length (CrashLoopManager.stored f) <= 20)%nat ->
  Forall CrashLoopManager.healthy calls ->
  StronglySorted Z.le
    (map CrashLoopManager.timestamp
         (CrashLoopManager.stored f ++ CrashLoopManager.recorded calls)) ->
  StronglySorted Z.le
    (map CrashLoopManager.timestamp
         (CrashLoopManager.stored (CrashLoopManager.record_all calls f))).
Proof.
  intros Hb Hh Hs. rewrite (record_all_healthy calls f Hh Hb).
  unfold CrashLoopManager.newest.
  change (map CrashLoopManager.timestamp) with (fmap (M:=list) CrashLoopManager.timestamp).
  rewrite fmap_drop. by apply strongly_sorted_drop.
Qed.

Lemma crash_log_stays_ordered_witness :
  StronglySorted Z.le
    (map CrashLoopManager.timestamp
       (CrashLoopManager.stored
          (CrashLoopManager.record_all
             [(CrashLoopManager.mkIo true true 5, "API_INIT_FAILURE");
              (CrashLoopManager.mkIo true true 9, "UNKNOWN_API_FAILURE")]
             (CrashLoopManager.Content
                (Some [CrashLoopManager.mkCrash 1 "API_INIT_FAILURE"]))))).
Proof.
  apply (crash_log_stays_ordered
           [(CrashLoopManager.mkIo true true 5, "API_INIT_FAILURE");
            (CrashLoopManager.mkIo true true 9, "UNKNOWN_API_FAILURE")]
           (CrashLoopManager.Content
              (Some [CrashLoopManager.mkCrash 1 "API_INIT_FAILURE"]))).
  - simpl. lia.
  - repeat constructor.
  - simpl. repeat constructor; lia.
Defined.

(** ** Dispatch to devices *)

Section Dispatch.

Import SubscriptionHandler.

Lemma find_None devices id : find devices id = None <-> id ∉ devices.
Proof.
  induction devices as [| d devices IH]; simpl.
  - split; [intros _; apply not_elem_of_nil | done].
  - rewrite not_elem_of_cons. destruct (String.eqb_spec d id) as [-> | Hne].
    + split; [discriminate | intros [H _]; done].
    + destruct (find devices id) as [i |].
      * split; [discriminate |]. intros [_ H]. by apply IH in H.
      * split; [| done]. intros _. split; [congruence | by apply IH].
Qed.

Lemma find_Some devices id i :
  find devices id = Some i ->
  devices !! i = Some id /\ forall j, (j < i)%nat -> devices !! j <> Some id.
Proof.
  revert i. induction devices as [| d devices IH]; intros i; simpl; [discriminate |].
  destruct (String.eqb_spec d id) as [-> | Hne].
  - intros H. inversion H; subst i. split; [done | intros j Hj; lia].
  - destruct (find devices id) as [k |]; [| discriminate].
    intros H. inversion H; subst i. destruct (IH k eq_refl) as [Hk Hlt].
    split; [done |]. intros [| j] Hj; simpl; [congruence | apply Hlt; lia].
Qed.

End Dispatch.

(** X22. [SubscriptionHandler.handleDeviceEvent] hands an event to the first
    device whose id equals the event's device id, and to no other; an event
    for an id that no device has is dropped.  Over a batch, the events
    delivered are exactly those for registered ids, each once and in arrival
    order, so dropped events do not disturb the others. *)
Theorem device_event_dispatch (devices : list string) (events : list ShortEvent.t) :
  (forall event,
     SubscriptionHandler.handleDeviceEvent devices event = None
     <-> ShortEvent.deviceId event ∉ devices)
  /\ (forall event i,
        SubscriptionHandler.handleDeviceEvent devices event = Some i ->
        devices !! i = Some (ShortEvent.deviceId event)
        /\ forall j, (j < i)%nat -> devices !! j <> Some (ShortEvent.deviceId event))
  /\ map snd (SubscriptionHandler.deliveries devices events)
     = filter (fun event => ShortEvent.deviceId event ∈ devices) events.
Proof.
  split; [| split].
  - intros event. apply find_None.
  - intros event i. apply find_Some.
  - unfold SubscriptionHandler.deliveries.
    induction events as [| ev events IH]; simpl; [done |].
    rewrite map_app, IH, filter_cons. unfold SubscriptionHandler.handleDeviceEvent.
    destruct (SubscriptionHandler.find devices (ShortEvent.deviceId ev)) as [i |] eqn:E.
    + rewrite decide_True; [done |].
      destruct (decide (ShortEvent.deviceId ev ∈ devices)) as [Hin | Hn]; [done |].
      apply find_None in Hn. congruence.
    + rewrite decide_False; [done |]. by apply find_None.
Qed.

Lemma device_event_dispatch_witness :
  SubscriptionHandler.handleDeviceEvent ["d1"; "d2"; "d2"]
    (ShortEvent.mk "d2" (JsString "on") "main" "switch" "switch") = Some 1%nat
  /\ ["d1"; "d2"; "d2"] !! 1%nat = Some "d2".
Proof.
  split; [reflexivity |].
  exact (proj1 (proj1 (proj2 (device_event_dispatch ["d1"; "d2"; "d2"] []))
                  (ShortEvent.mk "d2" (JsString "on") "main" "switch" "switch")
                  1%nat eq_refl)).
Defined.

(** Two events for an unknown device around one for a known device. *)
Example dropped_events_run :
  SubscriptionHandler.deliveries ["d1"; "d2"]
    [ShortEvent.mk "d7" (JsString "on") "main" "switch" "switch";
     ShortEvent.mk "d7" (JsString "off") "main" "switch" "switch";
     ShortEvent.mk "d2" (JsNumber 40) "main" "switchLevel" "level"]
  = [(1%nat, ShortEvent.mk "d2" (JsNumber 40) "main" "switchLevel" "level")].
Proof. reflexivity. Qed.

(** ** Guards and the confirmation fetch *)

(** X23. Without credentials (installed-app id or token absent or empty) the
    bulk subscription methods do nothing: reconciliation, bulk creation, bulk
    deletion, the lifecycle subscription and the remote listing return
    without a call and leave the world as it is.  [createDeviceSubscription]
    has no such guard: it posts with whatever credentials the handler holds,
    absent ones included. *)
Theorem subscription_guards (env : Env) (w : World) (id : string) :
  (missing_credentials (handler w) = true ->
   syncDeviceSubscriptions env w = (Returned tt, w)
   /\ createDeviceSubscriptions env w = (Returned tt, w)
   /\ deleteAllSubscriptions env w = (Returned tt, w)
   /\ createDeviceLifecycleSubscription env w = (Returned tt, w)
   /\ getExistingSubscriptions env w = (Returned ∅, w))
  /\ trace (snd (createDeviceSubscription env id w))
     = trace w ++ [PostDeviceSubscription (installedAppId (handler w))
                     (authToken (handler w)) id].
Proof.
  split.
  - intros Hc.
    rewrite syncDeviceSubscriptions_exact, createDeviceSubscriptions_exact,
      deleteAllSubscriptions_exact, createDeviceLifecycleSubscription_exact.
    unfold sync_requests, bulk_create_requests, delete_request, lifecycle_request,
      getExistingSubscriptions, bind, this.
    rewrite Hc. simpl. rewrite app_nil_r, world_eta. done.
  - unfold createDeviceSubscription, try_catch, bind, this, emit, ret, throw. simpl.
    destruct (post_reply env _) as [| st]; [done |]. by destruct (is_409 st).
Qed.

Lemma subscription_guards_witness :
  syncDeviceSubscriptions Sample.friendly
    (Sample.world (with_deviceIds ["d1"] initial_handler))
  = (Returned tt, Sample.world (with_deviceIds ["d1"] initial_handler)).
Proof.
  exact (proj1 (proj1 (subscription_guards Sample.friendly
                         (Sample.world (with_deviceIds ["d1"] initial_handler)) "d1")
                      eq_refl)).
Defined.

(** A CREATE item reaching a handler without credentials, in an EVENT whose
    payload brings none: the create goes out with absent credentials. *)
Example create_without_credentials_run :
  outbound_calls
    (trace (snd (handleRequest Sample.friendly
                   (Sample.event None None [Sample.deviceCreated "d9"])
                   (construct None))))
  = [PostDeviceSubscription None None "d9"].
Proof. vm_compute. reflexivity. Qed.

(** X24. A CONFIRMATION message with a non-empty confirmation URL fetches
    that URL exactly once and makes no other call; the answer is 200 when the
    fetch resolves and 500 when it is rejected, and in both cases
    credentials, registration and file are untouched.  Without a URL the
    answer is 400 and nothing is fetched. *)
Theorem confirmation_fetches_once
    (env : Env) (request : SmartAppRequest.t) (w : World) :
  SmartAppRequest.lifecycle request = "CONFIRMATION" ->
  (forall c,
     SmartAppRequest.confirmationData request = Some c ->
     ConfirmationData.confirmationUrl c <> "" ->
     let t := trace w ++ [GetConfirmationUrl (ConfirmationData.confirmationUrl c)] in
     handleRequest env request w
     = (Returned (mkResponse (match get_reply env t with
                              | Resolved => 200
                              | Rejected _ => 500
                              end) NoData),
        mkWorld (handler w) (disk w) t))
  /\ (SmartAppRequest.confirmationData request = None
      \/ (exists c, SmartAppRequest.confirmationData request = Some c
                    /\ ConfirmationData.confirmationUrl c = "") ->
      handleRequest env request w = (Returned (mkResponse 400 NoData), w)).
Proof.
  intros Hl. unfold handleRequest. rewrite Hl. simpl.
  rewrite handleConfirmation_exact. split.
  - intros c Hc Hne. rewrite Hc. apply truthy_string_true in Hne. by rewrite Hne.
  - intros [-> | (c & -> & Hc)]; [done |]. by rewrite Hc.
Qed.

Lemma confirmation_fetches_once_witness :
  let failing :=
    mkEnv (fun _ => Some []) (fun _ => Resolved) (fun _ => Resolved)
          (fun _ => Rejected None) true 0 in
  let request :=
    SmartAppRequest.mk "CONFIRMATION" None None
      (Some (ConfirmationData.mk "app-1" "https://confirm.example/x"))
      None None None None None in
  handleRequest failing request (construct None)
  = (Returned (mkResponse 500 NoData),
     mkWorld initial_handler None [GetConfirmationUrl "https://confirm.example/x"])
  /\ handleRequest failing (Sample.request "CONFIRMATION") (construct None)
     = (Returned (mkResponse 400 NoData), construct None).
Proof.
  intros failing request. split.
  - refine (proj1 (confirmation_fetches_once failing request (construct None) eq_refl)
                  (ConfirmationData.mk "app-1" "https://confirm.example/x") eq_refl _).
    simpl. discriminate.
  - refine (proj2 (confirmation_fetches_once failing (Sample.request "CONFIRMATION")
                     (construct None) eq_refl) _).
    left. reflexivity.
Defined.
